(** * The solutions store module and the team selector of the portfolio
      dashboard

    A shallow embedding of two JavaScript sources:

    - the Vuex store module of the portfolio solutions ([cleanState], [state],
      [getters], [actions], [mutations]);
    - the script of [components/project/TeamSelector.vue] (the computed
      property [innerValue] and the methods [filterMethod] and [filter]).

    JavaScript values are embedded as trees, the exceptions of the language
    as an error result, and the reads and writes of [state] and [this] as a
    state-passing monad. *)

From Stdlib Require Import ZArith String Ascii List.
From stdpp Require Import base option list strings gmap pretty.

Set Warnings "-register-all".
Open Scope string_scope.

(** ** JavaScript values and the built-in operations the sources use *)

Module JS.

(** The values that travel through the sources: what a JSON payload holds,
    and [undefined].  Numbers are the integers (database keys); objects are
    maps from property names to values. *)
Inductive value : Type :=
| VUndefined
| VNull
| VBool (b : bool)
| VNum (n : Z)
| VStr (s : string)
| VArr (elems : list value)
| VObj (props : gmap string value).

Inductive exn : Type :=
| TypeError    (* property read on undefined or null, call of a non-function *)
| AxiosError.  (* a rejected request *)

(** How the evaluation of an expression ends. *)
Inductive completion (A : Type) : Type :=
| Normal (a : A)
| Throw (e : exn).
Arguments Normal {A} a.
Arguments Throw {A} e.

(** Code that runs against a mutable object of type [S] ([state], [this]):
    the result and the object afterwards.  A throw keeps the writes made
    before it. *)
Definition M (S A : Type) : Type := S -> completion A * S.

Definition ret {S A} (a : A) : M S A := fun s => (Normal a, s).

Definition throw {S A} (e : exn) : M S A := fun s => (Throw e, s).

Definition bind {S A B} (m : M S A) (k : A -> M S B) : M S B :=
  fun s =>
    match m s with
    | (Normal a, s') => k a s'
    | (Throw e, s') => (Throw e, s')
    end.

(** [this.f], [state.f] as an expression. *)
Definition gets {S A} (f : S -> A) : M S A := fun s => (Normal (f s), s).

(** [this.f = v], [state.f = v]. *)
Definition modify {S} (f : S -> S) : M S unit := fun s => (Normal tt, f s).

Declare Scope js_scope.
Delimit Scope js_scope with js.
Notation "x <- m ;; k" := (bind m (fun x => k))
  (at level 100, m at next level, right associativity) : js_scope.
Open Scope js_scope.

(** An object literal [{ k1: v1, ... }]: the properties are defined from
    left to right, so the last of two with one name stays. *)
Definition obj (l : list (string * value)) : value :=
  VObj (fold_left (fun props kv => <[fst kv := snd kv]> props) l ∅).

(** ToBoolean. *)
Definition truthy (v : value) : bool :=
  match v with
  | VUndefined | VNull => false
  | VBool b => b
  | VNum n => negb (n =? 0)%Z
  | VStr s => negb (s =? "")%string
  | VArr _ | VObj _ => true
  end.

(** [a === b].  Primitive values are compared by type and value.  Objects
    and arrays are compared by identity: every [VArr] and [VObj] node stands
    for an object of its own, so two such operands are different. *)
Definition strict_eq (a b : value) : bool :=
  match a, b with
  | VUndefined, VUndefined => true
  | VNull, VNull => true
  | VBool x, VBool y => Bool.eqb x y
  | VNum x, VNum y => (x =? y)%Z
  | VStr x, VStr y => (x =? y)%string
  | _, _ => false
  end.

(** The value of [v.k] when [v] is neither [undefined] nor [null], for the
    property names the sources read ([solutions], [id], [countries],
    [label], [name], [email]): none of them is built into arrays, strings,
    numbers or booleans, so only an object can hold one. *)
Definition field (v : value) (k : string) : value :=
  match v with
  | VObj props => default VUndefined (props !! k)
  | _ => VUndefined
  end.

(** [v.k]. *)
Definition get_prop {S} (v : value) (k : string) : M S value :=
  match v with
  | VUndefined | VNull => throw TypeError
  | _ => ret (field v k)
  end.

(** The properties that [{...v}] copies: the own enumerable ones.  Those of
    an array or a string are its indices; [undefined], [null], numbers and
    booleans have none. *)
Definition index_props (l : list value) : gmap string value :=
  list_to_map (imap (fun (i : nat) (v : value) => (pretty i, v)) l).

Definition own_props (v : value) : gmap string value :=
  match v with
  | VObj props => props
  | VArr elems => index_props elems
  | VStr s => index_props (map (fun c => VStr (String c "")) (list_ascii_of_string s))
  | _ => ∅
  end.

(** ToString, as a template literal applies it to [${v}]. *)
Fixpoint to_string (v : value) : string :=
  match v with
  | VUndefined => "undefined"
  | VNull => "null"
  | VBool true => "true"
  | VBool false => "false"
  | VNum n => pretty n
  | VStr s => s
  | VArr l =>
      String.concat ","
        (map (fun x => match x with
                       | VUndefined | VNull => ""
                       | _ => to_string x
                       end) l)
  | VObj _ => "[object Object]"
  end.

(** *** Array.prototype.map, find, filter

    The callback runs on the elements from left to right and the first
    throw ends the loop. *)
Section Arrays.
Context {S : Type}.

Fixpoint mapM {A B} (f : A -> M S B) (l : list A) : M S (list B) :=
  match l with
  | [] => ret []
  | x :: l' => y <- f x ;; ys <- mapM f l' ;; ret (y :: ys)
  end.

Fixpoint findM (p : value -> M S bool) (l : list value) : M S value :=
  match l with
  | [] => ret VUndefined
  | x :: l' => b <- p x ;; if b then ret x else findM p l'
  end.

Fixpoint filterM (p : value -> M S bool) (l : list value) : M S (list value) :=
  match l with
  | [] => ret []
  | x :: l' =>
      b <- p x ;; ys <- filterM p l' ;; ret (if b then x :: ys else ys)
  end.

(** [recv.map(cb)]: only an array has the method. *)
Definition array_map (recv : value) (cb : value -> M S value) : M S value :=
  match recv with
  | VArr elems => ys <- mapM cb elems ;; ret (VArr ys)
  | _ => throw TypeError
  end.

(** [recv.find(cb)]. *)
Definition array_find (recv : value) (cb : value -> M S bool) : M S value :=
  match recv with
  | VArr elems => findM cb elems
  | _ => throw TypeError
  end.

(** [recv.filter(cb)]. *)
Definition array_filter (recv : value) (cb : value -> M S bool) : M S value :=
  match recv with
  | VArr elems => ys <- filterM cb elems ;; ret (VArr ys)
  | _ => throw TypeError
  end.
End Arrays.

(** *** Strings

    A string is the sequence of its code units, written with the characters
    of a Rocq string (one character per code unit in the samples, whose text
    is Latin-1).  [startsWith] compares code units.  [toLowerCase] follows
    the case mappings of Unicode and is a builtin of the runtime: what calls
    it takes it as a parameter. *)

(** [s.startsWith(q)]. *)
Definition startsWith (s q : string) : bool := String.prefix q s.

Section Builtins.
Variable toLowerCase : string -> string.

(** [v.toLowerCase()]: only a string has the method. *)
Definition call_toLowerCase {S} (v : value) : M S string :=
  match v with
  | VStr s => ret (toLowerCase s)
  | _ => throw TypeError
  end.

End Builtins.

End JS.

(** ** The solutions store module *)

Module SolutionStore.
Import JS.

(** The state object of the module. *)
Record State : Type := {
  allSolutionsList : value;
  allActiveSolutionsList : value;
}.

Definition set_allSolutionsList (data : value) (st : State) : State :=
  {| allSolutionsList := data;
     allActiveSolutionsList := allActiveSolutionsList st |}.

Definition set_allActiveSolutionsList (data : value) (st : State) : State :=
  {| allSolutionsList := allSolutionsList st;
     allActiveSolutionsList := data |}.

Definition cleanState : State :=
  {| allSolutionsList := VObj ∅;
     allActiveSolutionsList := VArr [] |}.

(** [state = () => ({ ...cleanState() })]. *)
Definition state : State :=
  {| allSolutionsList := allSolutionsList cleanState;
     allActiveSolutionsList := allActiveSolutionsList cleanState |}.

(** *** getters *)

Definition getSolutionsList : M State value :=
  l <- gets allSolutionsList ;;
  get_prop l "solutions".

Definition getAllActiveSolutionsList : M State value :=
  gets allActiveSolutionsList.

Definition getSolutionsListWithCountries : M State value :=
  l <- gets allSolutionsList ;;
  solutions <- get_prop l "solutions" ;;
  countriesSol <-
    array_map solutions (fun solution =>
      let copy := own_props solution in
      actives <- gets allActiveSolutionsList ;;
      found <-
        array_find actives (fun activeSolution =>
          a <- get_prop activeSolution "id" ;;
          b <- get_prop solution "id" ;;
          ret (strict_eq a b)) ;;
      countries <- get_prop found "countries" ;;
      ret (VObj (<["countries" := countries]> copy))) ;;
  ret countriesSol.

(** *** mutations *)

Definition PUT_SOLUTION_LIST (data : value) : M State unit :=
  modify (set_allSolutionsList data).

Definition PUT_ALL_ACTIVE_SOLUTIONS_LIST (data : value) : M State unit :=
  modify (set_allActiveSolutionsList data).

Definition mutations : list (string * (value -> M State unit)) :=
  [ ("PUT_SOLUTION_LIST", PUT_SOLUTION_LIST);
    ("PUT_ALL_ACTIVE_SOLUTIONS_LIST", PUT_ALL_ACTIVE_SOLUTIONS_LIST) ].

(** *** actions

    An action runs against the store and the HTTP client.  [requests] is
    the list of the URLs that were passed to [this.$axios.get], oldest
    first.  The client is a function from the URL to the outcome of the
    awaited promise: a response object, of which the actions read [data],
    or a rejection. *)
Record response : Type := { data : value }.

Record world : Type := {
  store : State;
  requests : list string;
}.

Section Actions.
Variable axios : string -> completion response.

(** [await this.$axios.get(url)]. *)
Definition axios_get (url : string) : M world response :=
  fun w => (axios url, {| store := store w; requests := requests w ++ [url] |}).

(** [commit(type, payload)]: the mutation registered under [type] runs
    on the state; an unknown type is reported on the console only. *)
Definition commit (type : string) (payload : value) : M world unit :=
  match List.find (fun entry => (fst entry =? type)%string) mutations with
  | Some (_, mutation) =>
      fun w =>
        let '(c, st) := mutation payload (store w) in
        (c, {| store := st; requests := requests w |})
  | None => ret tt
  end.

Definition loadSolutionsList (id : value) : M world value :=
  response <- axios_get ("/api/portfolio/" +:+ to_string id) ;;
  _ <- commit "PUT_SOLUTION_LIST" (data response) ;;
  ret (data response).

Definition loadAllActiveSolutionsList : M world value :=
  response <- axios_get "api/solution" ;;
  _ <- commit "PUT_ALL_ACTIVE_SOLUTIONS_LIST" (data response) ;;
  ret (data response).
End Actions.

End SolutionStore.

(** ** The team selector component *)

Module TeamSelector.
Import JS.

(** What the script reads and writes on [this]: the prop [value] (an array,
    [null] by default), the profile list mapped from the getter
    [system/getUserProfilesWithLabel], the data field [filteredOptions],
    and the events passed to [$emit], oldest first. *)
Record component : Type := {
  value : JS.value;
  userProfiles : JS.value;
  filteredOptions : JS.value;
  emitted : list (string * JS.value);
}.

Definition set_filteredOptions (v : JS.value) (c : component) : component :=
  {| value := value c;
     userProfiles := userProfiles c;
     filteredOptions := v;
     emitted := emitted c |}.

(** [this.$emit(event, payload)]. *)
Definition emit (event : string) (payload : JS.value) : M component unit :=
  modify (fun c =>
    {| value := value c;
       userProfiles := userProfiles c;
       filteredOptions := filteredOptions c;
       emitted := emitted c ++ [(event, payload)] |}).

(** The component as it is created, given the prop and the profile list:
    [data()] sets [filteredOptions] to the empty array, and nothing has been
    emitted. *)
Definition data (value userProfiles : JS.value) : component :=
  {| value := value;
     userProfiles := userProfiles;
     filteredOptions := VArr [];
     emitted := [] |}.

(** *** computed: innerValue *)

Definition innerValue_get : M component JS.value :=
  ids <- gets value ;;
  array_map ids (fun userId =>
    profiles <- gets userProfiles ;;
    profile <-
      array_find profiles (fun profile =>
        id <- get_prop profile "id" ;;
        ret (strict_eq id userId)) ;;
    get_prop profile "label").

Definition innerValue_set (value : JS.value) : M component unit :=
  idArray <-
    array_map value (fun label =>
      profiles <- gets userProfiles ;;
      profile <-
        array_find profiles (fun profile =>
          l <- get_prop profile "label" ;;
          ret (strict_eq l label)) ;;
      get_prop profile "id") ;;
  emit "change" idArray.

(** *** methods *)

Section Methods.
Variable toLowerCase : string -> string.

Definition filter (val query : JS.value) : M component bool :=
  v <- call_toLowerCase toLowerCase val ;;
  q <- call_toLowerCase toLowerCase query ;;
  ret (startsWith v q).

Definition filterMethod (query : JS.value) : M component unit :=
  if truthy query then
    profiles <- gets userProfiles ;;
    options <-
      array_filter profiles (fun p =>
        name <- get_prop p "name" ;;
        val <- (if truthy name then get_prop p "name" else get_prop p "email") ;;
        left <- filter val query ;;
        if left then ret true
        else
          email <- get_prop p "email" ;;
          if truthy email then
            email' <- get_prop p "email" ;;
            filter email' query
          else ret false) ;;
    modify (set_filteredOptions options)
  else
    modify (set_filteredOptions (VArr [])).

End Methods.

End TeamSelector.


(** ** The notions the properties are stated with *)

Module Notions.
Import JS.

(** A record: an object, as opposed to a primitive value or an array. *)
Definition is_record (v : value) : bool :=
  match v with
  | VObj _ => true
  | _ => false
  end.

Definition is_string (v : value) : bool :=
  match v with
  | VStr _ => true
  | _ => false
  end.

(** A primitive value: one that [===] compares by value. *)
Definition is_primitive (v : value) : bool :=
  match v with
  | VArr _ | VObj _ => false
  | _ => true
  end.

(** [a] and [b] carry the same [id]. *)
Definition same_id (a b : value) : bool :=
  strict_eq (field a "id") (field b "id").

(** [x] is the first element of [l] that satisfies [g]. *)
Definition first_such (g : value -> bool) (l : list value) (x : value) : Prop :=
  exists l1 l2,
    l = (l1 ++ x :: l2)%list /\ g x = true /\ forall y, In y l1 -> g y = false.

Section CaseInsensitive.
Variable toLowerCase : string -> string.

(** [q] is a prefix of [s] up to the case of the letters: the lower-case form
    of [q] is a prefix of the lower-case form of [s]. *)
Definition ci_prefix (q s : string) : Prop :=
  String.prefix (toLowerCase q) (toLowerCase s) = true.

(** [q] is such a prefix of the string [v]; nothing is a prefix of a value
    that is not a string. *)
Definition ci_prefix_of (q : string) (v : value) : Prop :=
  exists s, v = VStr s /\ ci_prefix q s.

(** [q] occurs in [s] from position [i] on, up to the case of the letters. *)
Fixpoint ci_occurs_at (i : nat) (q s : string) : Prop :=
  match i, s with
  | O, _ => ci_prefix q s
  | S i', String _ s' => ci_occurs_at i' q s'
  | S _, EmptyString => False
  end.

(** The test of [filterMethod] on a searchable profile. *)
Definition starts_with_ci (q : string) (v : value) : bool :=
  match v with
  | VStr s => startsWith (toLowerCase s) (toLowerCase q)
  | _ => false
  end.

Definition matches (q : string) (p : value) : bool :=
  starts_with_ci q (field p "name") || starts_with_ci q (field p "email").

End CaseInsensitive.

(** The profiles on which the search of [filterMethod] runs to its end: a
    record whose [name] and [email], when truthy, are strings, and which has
    a truthy [name] or a string as its [email]. *)
Definition searchable (p : value) : bool :=
  is_record p &&
  (if truthy (field p "name")
   then is_string (field p "name") &&
        (negb (truthy (field p "email")) || is_string (field p "email"))
   else is_string (field p "email")).

(** The elements of an array. *)
Definition elements (v : value) : list value :=
  match v with
  | VArr l => l
  | _ => []
  end.

(** An evaluation is quiet when it leaves the object as it was and throws
    nothing but a [TypeError]. *)
Definition quiet {S A} (m : M S A) (s : S) : Prop :=
  (exists a, m s = (Normal a, s)) \/ m s = (Throw TypeError, s).

End Notions.

(** ** Sample data *)

Module Samples.
Import JS.

(** Two solutions of a portfolio and three active solutions, two of which
    share the id 2. *)
Definition solutions : list value :=
  [ obj [("id", VNum 2); ("name", VStr "Drones"); ("countries", VNull)];
    obj [("id", VNum 1); ("name", VStr "Wash")] ].

Definition actives : list value :=
  [ obj [("id", VNum 1); ("countries", VArr [VNum 5])];
    obj [("id", VNum 2); ("countries", VArr [VNum 7; VNum 8])];
    obj [("id", VNum 2); ("countries", VArr [VNum 9])] ].

Definition loaded : SolutionStore.State :=
  {| SolutionStore.allSolutionsList := obj [("solutions", VArr solutions)];
     SolutionStore.allActiveSolutionsList := VArr actives |}.

(** The same solutions against an active list without the id 2. *)
Definition stale : SolutionStore.State :=
  {| SolutionStore.allSolutionsList := obj [("solutions", VArr solutions)];
     SolutionStore.allActiveSolutionsList :=
       VArr [ obj [("id", VNum 1); ("countries", VArr [VNum 5])] ] |}.

(** A backend that knows the portfolio 12 and the list of active solutions
    under the URLs the actions ask for, and rejects everything else. *)
Definition backend (url : string) : completion SolutionStore.response :=
  if (url =? "/api/portfolio/12")%string then
    Normal {| SolutionStore.data := obj [("solutions", VArr solutions)] |}
  else if (url =? "api/solution")%string then
    Normal {| SolutionStore.data := VArr actives |}
  else Throw AxiosError.

Definition fresh : SolutionStore.world :=
  {| SolutionStore.store := SolutionStore.state;
     SolutionStore.requests := [] |}.

(** Profiles of the team selector. *)
Definition alice : value :=
  obj [("id", VNum 1); ("label", VStr "Alice <alice@unicef.org>");
       ("name", VStr "Alice"); ("email", VStr "alice@unicef.org")].

Definition bob : value :=
  obj [("id", VNum 2); ("label", VStr "bob@unicef.org");
       ("name", VNull); ("email", VStr "bob@unicef.org")].

(** A profile with neither a name nor an email. *)
Definition anonymous : value :=
  obj [("id", VNum 3); ("label", VStr "3"); ("name", VNull); ("email", VNull)].

(** Two profiles with one label. *)
Definition sam : value :=
  obj [("id", VNum 4); ("label", VStr "Sam"); ("name", VStr "Sam");
       ("email", VStr "sam@unicef.org")].

Definition sam' : value :=
  obj [("id", VNum 5); ("label", VStr "Sam"); ("name", VStr "Sam");
       ("email", VStr "samuel@unicef.org")].

(** A selector on the team of Bob and Alice. *)
Definition team : TeamSelector.component :=
  TeamSelector.data (VArr [VNum 2; VNum 1]) (VArr [alice; bob]).

(** The same team when the profile list holds the anonymous profile. *)
Definition team_with_anonymous : TeamSelector.component :=
  TeamSelector.data (VArr [VNum 2; VNum 1]) (VArr [alice; bob; anonymous]).

(** A selector on the second Sam. *)
Definition namesakes : TeamSelector.component :=
  TeamSelector.data (VArr [VNum 5]) (VArr [alice; sam; sam']).

End Samples.

(** ** The HTTP client

    [this.$axios] is the axios instance that the Nuxt module creates with a
    base URL.  The client is not part of the repository: the URL that a [get]
    goes to is modelled as axios builds it ([buildFullPath]): a URL that is
    not absolute is joined to the base URL by one slash ([combineURLs]). *)

Module Client.

Fixpoint strip_leading_slashes (s : string) : string :=
  match s with
  | String "/" s' => strip_leading_slashes s'
  | _ => s
  end.

Fixpoint strip_trailing_slashes (s : string) : string :=
  match s with
  | EmptyString => EmptyString
  | String c s' =>
      match strip_trailing_slashes s' with
      | EmptyString => if (c =? "/")%char then EmptyString else String c EmptyString
      | r => String c r
      end
  end.

(** [combineURLs(baseURL, relativeURL)]. *)
Definition combineURLs (baseURL relativeURL : string) : string :=
  if (relativeURL =? "")%string then baseURL
  else strip_trailing_slashes baseURL +:+ ("/" +:+ strip_leading_slashes relativeURL).

Definition is_letter (c : ascii) : bool :=
  let n := nat_of_ascii c in
  ((65 <=? n)%nat && (n <=? 90)%nat) || ((97 <=? n)%nat && (n <=? 122)%nat).

Definition is_scheme_char (c : ascii) : bool :=
  let n := nat_of_ascii c in
  is_letter c || ((48 <=? n)%nat && (n <=? 57)%nat)
  || (c =? "+")%char || (c =? "-")%char || (c =? ".")%char.

(** What follows the colon that ends a run of scheme characters. *)
Fixpoint after_scheme (s : string) : option string :=
  match s with
  | EmptyString => None
  | String c s' =>
      if (c =? ":")%char then Some s'
      else if is_scheme_char c then after_scheme s' else None
  end.

(** [isAbsoluteURL(url)]: the URL starts with two slashes, or with a scheme,
    a colon and two slashes. *)
Definition isAbsoluteURL (url : string) : bool :=
  String.prefix "//" url ||
  match url with
  | String c s' =>
      is_letter c &&
      match after_scheme s' with
      | Some r => String.prefix "//" r
      | None => false
      end
  | EmptyString => false
  end.

(** [buildFullPath(baseURL, requestedURL)]: the URL of the request. *)
Definition request_url (baseURL url : string) : string :=
  if negb (baseURL =? "")%string && negb (isAbsoluteURL url)
  then combineURLs baseURL url
  else url.

End Client.

(** ** Lower case in Latin-1

    What [toLowerCase] computes on the strings whose code units are below
    256, one character per code unit: the capitals A to Z, and À to Þ
    without the sign ×, go to their small letters, 32 code units further; in
    this range no case mapping of Unicode depends on the context. *)

Module Latin1.

Definition lower_char (c : ascii) : ascii :=
  let n := nat_of_ascii c in
  if ((65 <=? n)%nat && (n <=? 90)%nat)
     || ((192 <=? n)%nat && (n <=? 222)%nat && negb (n =? 215)%nat)
  then ascii_of_nat (n + 32) else c.

Fixpoint toLowerCase (s : string) : string :=
  match s with
  | EmptyString => EmptyString
  | String c s' => String (lower_char c) (toLowerCase s')
  end.

End Latin1.

(** ** Further notions *)

Module Views.
Import JS Notions.

Definition is_array (v : value) : bool :=
  match v with
  | VArr _ => true
  | _ => false
  end.

Definition is_nullish (v : value) : bool :=
  match v with
  | VUndefined | VNull => true
  | _ => false
  end.

(** The first element of [l] whose property [k] is [t], or [undefined]. *)
Definition first_with (k : string) (t : value) (l : list value) : value :=
  default VUndefined (List.find (fun p => strict_eq (field p k) t) l).

(** The record that the merged getter makes of a solution: the properties
    of the solution, with the [countries] of the first active solution that
    has the id of the solution. *)
Definition merge_countries (actives : list value) (solution : value) : value :=
  VObj (<["countries" :=
            field (default VUndefined
                     (List.find (fun a => same_id a solution) actives))
                  "countries"]>
          (own_props solution)).

(** The component after the parent has bound [v] to the prop [value]. *)
Definition with_value (v : value) (c : TeamSelector.component) : TeamSelector.component :=
  {| TeamSelector.value := v;
     TeamSelector.userProfiles := TeamSelector.userProfiles c;
     TeamSelector.filteredOptions := TeamSelector.filteredOptions c;
     TeamSelector.emitted := TeamSelector.emitted c |}.

(** The component after [event] has been emitted with [payload]. *)
Definition with_event (event : string) (payload : value)
    (c : TeamSelector.component) : TeamSelector.component :=
  {| TeamSelector.value := TeamSelector.value c;
     TeamSelector.userProfiles := TeamSelector.userProfiles c;
     TeamSelector.filteredOptions := TeamSelector.filteredOptions c;
     TeamSelector.emitted := TeamSelector.emitted c ++ [(event, payload)] |}.

(** An evaluation that neither reads nor writes the object it runs against:
    it has one result for every object and returns the object as it was. *)
Definition stateless {S A} (m : M S A) : Prop :=
  exists r : completion A, forall s : S, m s = (r, s).

(** A profile whose name is a truthy string that starts with [q], up to the
    case of the letters. *)
Definition name_starts_with (toLowerCase : string -> string)
    (q : string) (p : value) : bool :=
  match p with
  | VObj _ =>
      match field p "name" with
      | VStr s => negb (s =? "")%string && startsWith (toLowerCase s) (toLowerCase q)
      | _ => false
      end
  | _ => false
  end.

End Views.

(** ** Further sample data *)

Module MoreSamples.
Import JS.

(** A backend out of reach. *)
Definition offline (url : string) : completion SolutionStore.response :=
  Throw AxiosError.

(** A backend that answers the portfolio 12 with [null]. *)
Definition hollow (url : string) : completion SolutionStore.response :=
  if (url =? "/api/portfolio/12")%string then
    Normal {| SolutionStore.data := VNull |}
  else Throw AxiosError.

(** A profile with a name and with a number where the email goes. *)
Definition carol : value :=
  obj [("id", VNum 6); ("label", VStr "Carol"); ("name", VStr "Carol");
       ("email", VNum 42)].

Definition with_carol : TeamSelector.component :=
  TeamSelector.data (VArr [VNum 6]) (VArr [Samples.alice; carol]).

(** A profile whose name starts with the capital E with an acute accent,
    the code unit 201; its small letter is the code unit 233. *)
Definition elodie : value :=
  obj [("id", VNum 7); ("label", VStr "elodie@unicef.org");
       ("name", VStr (String "201" "lodie")); ("email", VStr "elodie@unicef.org")].

Definition with_elodie : TeamSelector.component :=
  TeamSelector.data (VArr [VNum 7]) (VArr [Samples.alice; elodie]).

End MoreSamples.

(** ** Reasoning about evaluations *)

Section Evaluation.
Import JS Notions.
Context {S : Type}.

Lemma bind_normal {A B} (m : M S A) (k : A -> M S B) s a s' :
  m s = (Normal a, s') -> bind m k s = k a s'.
Proof. intros H. unfold bind. now rewrite H. Qed.

Lemma bind_throw {A B} (m : M S A) (k : A -> M S B) s e s' :
  m s = (Throw e, s') -> bind m k s = (Throw e, s').
Proof. intros H. unfold bind. now rewrite H. Qed.

Lemma bind_gets {A B} (f : S -> A) (k : A -> M S B) s :
  bind (gets f) k s = k (f s) s.
Proof. reflexivity. Qed.

Lemma get_prop_record (v : value) k (s : S) :
  Notions.is_record v = true -> get_prop v k s = (Normal (field v k), s).
Proof. destruct v; simpl; intros H; try discriminate; reflexivity. Qed.

Lemma get_prop_undefined k (s : S) :
  get_prop VUndefined k s = (Throw TypeError, s).
Proof. reflexivity. Qed.

(** A loop whose callback reads only. *)
Lemma mapM_normal {A B} (f : A -> M S B) (g : A -> B) l s :
  (forall x, In x l -> f x s = (Normal (g x), s)) ->
  mapM f l s = (Normal (map g l), s).
Proof.
  induction l as [|x l IH]; intros H; simpl.
  - reflexivity.
  - rewrite (bind_normal _ _ _ _ _ (H x (or_introl eq_refl))).
    rewrite (bind_normal _ _ _ _ _ (IH (fun y Hy => H y (or_intror Hy)))).
    reflexivity.
Qed.

Lemma array_map_normal (cb : value -> M S value) (g : value -> value) l s :
  (forall x, In x l -> cb x s = (Normal (g x), s)) ->
  array_map (VArr l) cb s = (Normal (VArr (map g l)), s).
Proof.
  intros H. unfold array_map.
  now rewrite (bind_normal _ _ _ _ _ (mapM_normal cb g l s H)).
Qed.

Lemma array_map_normal_map {A} (h : A -> value) (cb : value -> M S value)
    (g : A -> value) (l : list A) s :
  (forall x, In x l -> cb (h x) s = (Normal (g x), s)) ->
  array_map (VArr (map h l)) cb s = (Normal (VArr (map g l)), s).
Proof.
  intros H.
  assert (Hloop : mapM cb (map h l) s = (Normal (map g l), s)).
  { induction l as [|x l IH]; simpl; [reflexivity|].
    rewrite (bind_normal _ _ _ _ _ (H x (or_introl eq_refl))).
    rewrite (bind_normal _ _ _ _ _ (IH (fun y Hy => H y (or_intror Hy)))).
    reflexivity. }
  unfold array_map. now rewrite (bind_normal _ _ _ _ _ Hloop).
Qed.

Lemma findM_normal (p : value -> M S bool) (g : value -> bool) l s :
  (forall x, In x l -> p x s = (Normal (g x), s)) ->
  findM p l s = (Normal (default VUndefined (List.find g l)), s).
Proof.
  induction l as [|x l IH]; intros H; simpl.
  - reflexivity.
  - rewrite (bind_normal _ _ _ _ _ (H x (or_introl eq_refl))).
    destruct (g x); [reflexivity|].
    apply IH. intros y Hy. apply H. now right.
Qed.

Lemma filterM_normal (p : value -> M S bool) (g : value -> bool) l s :
  (forall x, In x l -> p x s = (Normal (g x), s)) ->
  filterM p l s = (Normal (List.filter g l), s).
Proof.
  induction l as [|x l IH]; intros H; simpl.
  - reflexivity.
  - rewrite (bind_normal _ _ _ _ _ (H x (or_introl eq_refl))).
    rewrite (bind_normal _ _ _ _ _ (IH (fun y Hy => H y (or_intror Hy)))).
    destruct (g x); reflexivity.
Qed.

Lemma array_filter_normal (cb : value -> M S bool) (g : value -> bool) l s :
  (forall x, In x l -> cb x s = (Normal (g x), s)) ->
  array_filter (VArr l) cb s = (Normal (VArr (List.filter g l)), s).
Proof.
  intros H. unfold array_filter.
  now rewrite (bind_normal _ _ _ _ _ (filterM_normal cb g l s H)).
Qed.

Lemma quiet_ret {A} (a : A) (s : S) : quiet (ret a) s.
Proof. left. now exists a. Qed.

Lemma quiet_throw {A} (s : S) : quiet (@throw S A TypeError) s.
Proof. now right. Qed.

Lemma quiet_gets {A} (f : S -> A) (s : S) : quiet (gets f) s.
Proof. left. now exists (f s). Qed.

Lemma quiet_bind {A B} (m : M S A) (k : A -> M S B) s :
  quiet m s -> (forall a, quiet (k a) s) -> quiet (bind m k) s.
Proof.
  intros [[a Ha]|Ht] Hk.
  - unfold quiet. rewrite (bind_normal _ _ _ _ _ Ha). apply Hk.
  - right. now apply bind_throw.
Qed.

Lemma quiet_get_prop v k (s : S) : quiet (get_prop v k) s.
Proof. destruct v; simpl; first [apply quiet_throw | apply quiet_ret]. Qed.

Lemma quiet_call_toLowerCase lower v (s : S) : quiet (call_toLowerCase lower v) s.
Proof. destruct v; simpl; first [apply quiet_throw | apply quiet_ret]. Qed.

Lemma quiet_findM (p : value -> M S bool) l s :
  (forall x, quiet (p x) s) -> quiet (findM p l) s.
Proof.
  intros Hp. induction l as [|x l IH]; simpl.
  - apply quiet_ret.
  - apply quiet_bind; [apply Hp|]. intros [|]; [apply quiet_ret | apply IH].
Qed.

Lemma quiet_array_find recv (p : value -> M S bool) s :
  (forall x, quiet (p x) s) -> quiet (array_find recv p) s.
Proof.
  intros Hp. destruct recv; simpl; try apply quiet_throw.
  now apply quiet_findM.
Qed.

(** A quiet loop in which one round throws, throws. *)
Lemma mapM_throw {A B} (f : A -> M S B) l x s :
  (forall y, quiet (f y) s) -> In x l -> f x s = (Throw TypeError, s) ->
  mapM f l s = (Throw TypeError, s).
Proof.
  intros Hq Hin Hx. induction l as [|y l IH]; [destruct Hin|].
  simpl. destruct (Hq y) as [[b Hb]|Ht].
  - rewrite (bind_normal _ _ _ _ _ Hb).
    destruct Hin as [->|Hin]; [congruence|].
    now rewrite (bind_throw _ _ _ _ _ (IH Hin)).
  - now apply bind_throw.
Qed.

Lemma array_map_throw (cb : value -> M S value) l x s :
  (forall y, quiet (cb y) s) -> In x l -> cb x s = (Throw TypeError, s) ->
  array_map (VArr l) cb s = (Throw TypeError, s).
Proof.
  intros Hq Hin Hx. unfold array_map.
  now rewrite (bind_throw _ _ _ _ _ (mapM_throw cb l x s Hq Hin Hx)).
Qed.

(** A search in which no element passes the test returns [undefined], unless
    the test throws on the way. *)
Lemma findM_none (p : value -> M S bool) l s :
  (forall x, In x l ->
     p x s = (Normal false, s) \/ p x s = (Throw TypeError, s)) ->
  findM p l s = (Normal VUndefined, s) \/ findM p l s = (Throw TypeError, s).
Proof.
  induction l as [|x l IH]; intros H; simpl.
  - now left.
  - destruct (H x (or_introl eq_refl)) as [Hx|Hx].
    + rewrite (bind_normal _ _ _ _ _ Hx). apply IH. intros y Hy. apply H. now right.
    + right. now apply bind_throw.
Qed.

End Evaluation.

(** ** Lists *)

Lemma find_first_such (g : JS.value -> bool) l x :
  List.find g l = Some x -> Notions.first_such g l x.
Proof.
  induction l as [|y l IH]; simpl; [discriminate|].
  destruct (g y) eqn:Hy.
  - intros [= ->]. exists [], l. repeat split; [exact Hy|]. intros ? [].
  - intros H. destruct (IH H) as (l1 & l2 & -> & Hx & Hl1).
    exists (y :: l1), l2. repeat split; [exact Hx|].
    intros z [<-|Hz]; [exact Hy | now apply Hl1].
Qed.

Lemma filter_none (g : JS.value -> bool) l :
  (forall x, In x l -> g x = false) -> List.filter g l = [].
Proof.
  induction l as [|y l IH]; intros H; simpl; [reflexivity|].
  rewrite (H y (or_introl eq_refl)). apply IH. intros x Hx. apply H. now right.
Qed.

Lemma find_exists (g : JS.value -> bool) l x :
  In x l -> g x = true -> exists y, List.find g l = Some y.
Proof.
  intros Hin Hx. destruct (List.find g l) eqn:E; [eauto|].
  now rewrite (find_none _ _ E x Hin) in Hx.
Qed.

(** ** The solutions store: the merged getter *)

Section MergedGetter.
Import JS Notions SolutionStore.

(** The test of the search in [getSolutionsListWithCountries], on records. *)
Lemma id_test_record (solution activeSolution : value) (st : State) :
  is_record solution = true -> is_record activeSolution = true ->
  (a <- get_prop activeSolution "id" ;;
   b <- get_prop solution "id" ;;
   ret (strict_eq a b)) st = (Normal (same_id activeSolution solution), st).
Proof.
  intros Hs Ha.
  rewrite (bind_normal _ _ _ _ _ (get_prop_record _ _ _ Ha)).
  rewrite (bind_normal _ _ _ _ _ (get_prop_record _ _ _ Hs)).
  reflexivity.
Qed.

(** The same test on any two values: it reads only, and it fails when the
    two ids differ. *)
Lemma id_test_quiet (solution activeSolution : value) (st : State) :
  quiet (a <- get_prop activeSolution "id" ;;
         b <- get_prop solution "id" ;;
         ret (strict_eq a b)) st.
Proof.
  apply quiet_bind; [apply quiet_get_prop|]. intros a.
  apply quiet_bind; [apply quiet_get_prop|]. intros b. apply quiet_ret.
Qed.

Lemma id_test_differ (solution activeSolution : value) (st : State) :
  same_id activeSolution solution = false ->
  (a <- get_prop activeSolution "id" ;;
   b <- get_prop solution "id" ;;
   ret (strict_eq a b)) st = (Normal false, st)
  \/ (a <- get_prop activeSolution "id" ;;
      b <- get_prop solution "id" ;;
      ret (strict_eq a b)) st = (Throw TypeError, st).
Proof.
  intros Hd.
  destruct activeSolution; try (right; reflexivity);
    destruct solution; try (right; reflexivity);
    left; unfold bind, same_id in *; simpl in *; unfold ret; congruence.
Qed.

(** C1. In a state whose solutions and active solutions are records, and in
    which every solution has an active solution with the same id, the merged
    getter returns one record per solution, in the order of the solutions;
    the [countries] of each record is that of the first active solution with
    the id of the solution, and every other property is the one of the
    solution. The state is left as it was. *)
Theorem getSolutionsListWithCountries_merges
    (st : State) (solutions actives : list value) :
  field (allSolutionsList st) "solutions" = VArr solutions ->
  allActiveSolutionsList st = VArr actives ->
  Forall (fun v => is_record v = true) solutions ->
  Forall (fun v => is_record v = true) actives ->
  (forall solution, In solution solutions ->
     exists a, In a actives /\ same_id a solution = true) ->
  exists records,
    getSolutionsListWithCountries st = (Normal (VArr records), st) /\
    Forall2
      (fun solution record =>
         exists a props,
           first_such (fun a => same_id a solution) actives a /\
           record = VObj props /\
           props !! "countries" = Some (field a "countries") /\
           forall k, k <> "countries" -> props !! k = own_props solution !! k)
      solutions records.
Proof.
  intros Hsol Hact Hrs Hra Hin.
  set (pick := fun solution =>
         default VUndefined (List.find (fun a => same_id a solution) actives)).
  set (merge := fun solution =>
         VObj (<["countries" := field (pick solution) "countries"]>
                 (own_props solution))).
  exists (map merge solutions). split.
  - unfold getSolutionsListWithCountries.
    rewrite bind_gets.
    assert (Hl : is_record (allSolutionsList st) = true)
      by (destruct (allSolutionsList st); simpl in Hsol; try discriminate; reflexivity).
    rewrite (bind_normal _ _ _ _ _ (get_prop_record _ "solutions" st Hl)).
    rewrite Hsol.
    assert (Hloop : array_map (VArr solutions) (fun solution =>
        let copy := own_props solution in
        actives0 <- gets allActiveSolutionsList ;;
        found <- array_find actives0 (fun activeSolution =>
                   a <- get_prop activeSolution "id" ;;
                   b <- get_prop solution "id" ;;
                   ret (strict_eq a b)) ;;
        countries <- get_prop found "countries" ;;
        ret (VObj (<["countries" := countries]> copy))) st
      = (Normal (VArr (map merge solutions)), st)).
    { apply array_map_normal. intros solution Hs. cbv zeta.
      rewrite bind_gets.
      rewrite Hact. simpl array_find.
      assert (Hrec : is_record solution = true)
        by (rewrite Forall_forall in Hrs; apply Hrs; now apply list_elem_of_In).
      rewrite (bind_normal _ _ _ _ _
                 (findM_normal _ (fun a => same_id a solution) actives st
                    (fun a Ha => id_test_record solution a st Hrec
                       (proj1 (Forall_forall _ _) Hra a (proj2 (list_elem_of_In _ _) Ha))))).
      fold (pick solution).
      assert (Hp : is_record (pick solution) = true).
      { destruct (Hin solution Hs) as (a & Ha & Hid).
        destruct (find_exists (fun a => same_id a solution) _ _ Ha Hid) as (y & Hy).
        unfold pick. rewrite Hy. simpl.
        rewrite Forall_forall in Hra. apply Hra, list_elem_of_In.
        exact (proj1 (find_some _ _ Hy)). }
      rewrite (bind_normal _ _ _ _ _ (get_prop_record _ "countries" st Hp)).
      reflexivity. }
    rewrite (bind_normal _ _ _ _ _ Hloop). reflexivity.
  - clear Hsol Hrs. induction solutions as [|solution l IH]; simpl; constructor.
    + destruct (Hin solution (or_introl eq_refl)) as (a & Ha & Hid).
      destruct (find_exists (fun a => same_id a solution) _ _ Ha Hid) as (y & Hy).
      exists y. eexists. split; [now apply find_first_such|].
      split; [reflexivity|]. unfold pick. rewrite Hy. simpl. split.
      * apply lookup_insert_eq.
      * intros k Hk. now apply lookup_insert_ne.
    + apply IH. intros s Hs. apply Hin. now right.
Qed.

Lemma getSolutionsListWithCountries_merges_witness :
  field (allSolutionsList Samples.loaded) "solutions" = VArr Samples.solutions /\
  allActiveSolutionsList Samples.loaded = VArr Samples.actives /\
  exists records,
    getSolutionsListWithCountries Samples.loaded
      = (Normal (VArr records), Samples.loaded) /\
    Forall2
      (fun solution record =>
         exists a props,
           first_such (fun a => same_id a solution) Samples.actives a /\
           record = VObj props /\
           props !! "countries" = Some (field a "countries") /\
           forall k, k <> "countries" -> props !! k = own_props solution !! k)
      Samples.solutions records.
Proof.
  split; [reflexivity|]. split; [reflexivity|].
  apply (getSolutionsListWithCountries_merges
           Samples.loaded Samples.solutions Samples.actives).
  - reflexivity.
  - reflexivity.
  - repeat constructor.
  - repeat constructor.
  - intros solution [<-|[<-|[]]].
    + eexists. split; [right; left; reflexivity | reflexivity].
    + eexists. split; [left; reflexivity | reflexivity].
Defined.

(** The merged view of the sample state: the solution 2 takes the countries
    of the first of the two active solutions with the id 2. *)
Example getSolutionsListWithCountries_loaded :
  getSolutionsListWithCountries Samples.loaded
  = (Normal (VArr
       [ obj [("id", VNum 2); ("name", VStr "Drones");
              ("countries", VArr [VNum 7; VNum 8])];
         obj [("id", VNum 1); ("name", VStr "Wash");
              ("countries", VArr [VNum 5])] ]),
     Samples.loaded).
Proof. vm_compute. reflexivity. Qed.

(** The round of the loop of [getSolutionsListWithCountries] on one
    solution reads only. *)
Lemma merge_round_quiet (solution : value) (st : State) :
  quiet (let copy := own_props solution in
         actives <- gets allActiveSolutionsList ;;
         found <-
           array_find actives (fun activeSolution =>
             a <- get_prop activeSolution "id" ;;
             b <- get_prop solution "id" ;;
             ret (strict_eq a b)) ;;
         countries <- get_prop found "countries" ;;
         ret (VObj (<["countries" := countries]> copy))) st.
Proof.
  cbv zeta. apply quiet_bind; [apply quiet_gets|]. intros actives.
  apply quiet_bind.
  - apply quiet_array_find. intros a. apply id_test_quiet.
  - intros found. apply quiet_bind; [apply quiet_get_prop|].
    intros c. apply quiet_ret.
Qed.

(** C2. In a state with a solution whose id no active solution has, the
    merged getter throws: it neither skips the solution nor returns the
    records of the other solutions, and the state is left as it was. *)
Theorem getSolutionsListWithCountries_unmatched
    (st : State) (solutions actives : list value) (solution : value) :
  field (allSolutionsList st) "solutions" = VArr solutions ->
  allActiveSolutionsList st = VArr actives ->
  In solution solutions ->
  (forall a, In a actives -> same_id a solution = false) ->
  getSolutionsListWithCountries st = (Throw TypeError, st).
Proof.
  intros Hsol Hact Hin Hno.
  unfold getSolutionsListWithCountries. rewrite bind_gets.
  assert (Hl : is_record (allSolutionsList st) = true)
    by (destruct (allSolutionsList st); simpl in Hsol; try discriminate; reflexivity).
  rewrite (bind_normal _ _ _ _ _ (get_prop_record _ "solutions" st Hl)).
  rewrite Hsol. apply bind_throw.
  apply array_map_throw with (x := solution);
    [intros y; apply merge_round_quiet | exact Hin |].
  cbv zeta. rewrite bind_gets, Hact. simpl array_find.
  destruct (findM_none
              (fun activeSolution : value =>
                 a <- get_prop activeSolution "id" ;;
                 b <- get_prop solution "id" ;;
                 ret (strict_eq a b)) actives st
              (fun a Ha => id_test_differ solution a st (Hno a Ha)))
    as [Hu|Ht].
  - rewrite (bind_normal _ _ _ _ _ Hu). reflexivity.
  - now apply bind_throw.
Qed.

Lemma getSolutionsListWithCountries_unmatched_witness :
  In (obj [("id", VNum 2); ("name", VStr "Drones"); ("countries", VNull)])
     Samples.solutions /\
  getSolutionsListWithCountries Samples.stale = (Throw TypeError, Samples.stale).
Proof.
  split; [left; reflexivity|].
  apply (getSolutionsListWithCountries_unmatched Samples.stale Samples.solutions
           [obj [("id", VNum 1); ("countries", VArr [VNum 5])]]
           (obj [("id", VNum 2); ("name", VStr "Drones"); ("countries", VNull)])).
  - reflexivity.
  - reflexivity.
  - left; reflexivity.
  - intros a [<-|[]]. reflexivity.
Defined.

End MergedGetter.

(** ** The solutions store: mutations and actions *)

Section StoreActions.
Import JS Notions SolutionStore.

(** A request that succeeds: the URL is logged, the mutation receives the
    body, and the body is the result. *)
Lemma loadAllActiveSolutionsList_success axios (body : value) (w : world) :
  axios "api/solution" = Normal {| data := body |} ->
  loadAllActiveSolutionsList axios w
  = (Normal body,
     {| store := set_allActiveSolutionsList body (store w);
        requests := requests w ++ ["api/solution"] |}).
Proof.
  intros H. unfold loadAllActiveSolutionsList, axios_get, bind.
  rewrite H. reflexivity.
Qed.

(** C3. When the request of [loadSolutionsList id] succeeds, the action has
    asked for the URL made of [/api/portfolio/] and the id, [allSolutionsList]
    is the body of the response as it came, the result of the action is that
    same body, and nothing else has changed. *)
Theorem loadSolutionsList_success axios (id body : value) (w : world) :
  axios ("/api/portfolio/" +:+ to_string id) = Normal {| data := body |} ->
  loadSolutionsList axios id w
  = (Normal body,
     {| store := set_allSolutionsList body (store w);
        requests := requests w ++ ["/api/portfolio/" +:+ to_string id] |}).
Proof.
  intros H. unfold loadSolutionsList, axios_get, bind.
  rewrite H. reflexivity.
Qed.

Lemma loadSolutionsList_success_witness :
  "/api/portfolio/" +:+ to_string (VNum 12) = "/api/portfolio/12" /\
  loadSolutionsList Samples.backend (VNum 12) Samples.fresh
  = (Normal (obj [("solutions", VArr Samples.solutions)]),
     {| store :=
          {| allSolutionsList := obj [("solutions", VArr Samples.solutions)];
             allActiveSolutionsList := VArr [] |};
        requests := ["/api/portfolio/12"] |}).
Proof.
  split; [reflexivity|].
  apply (loadSolutionsList_success Samples.backend (VNum 12)
           (obj [("solutions", VArr Samples.solutions)]) Samples.fresh).
  reflexivity.
Defined.

(** The id of the route, a string, goes into the URL as it is. *)
Example loadSolutionsList_route_param :
  requests (snd (loadSolutionsList Samples.backend (VStr "12") Samples.fresh))
  = ["/api/portfolio/12"].
Proof. reflexivity. Qed.

(** C7. When its request succeeds, [loadAllActiveSolutionsList] has passed
    [api/solution] to the [get] of the client, [allActiveSolutionsList] is
    the body of the response and nothing else has changed. With a client
    that has a base URL, the GET goes to the base URL followed by
    [/api/solution]: the URL that [/api/solution] gives as well. *)
Theorem loadAllActiveSolutionsList_endpoint
    axios (baseURL : string) (body : value) (w : world) :
  baseURL <> "" ->
  axios "api/solution" = Normal {| data := body |} ->
  loadAllActiveSolutionsList axios w
  = (Normal body,
     {| store := set_allActiveSolutionsList body (store w);
        requests := requests w ++ ["api/solution"] |}) /\
  Client.request_url baseURL "api/solution"
  = Client.strip_trailing_slashes baseURL +:+ "/api/solution" /\
  Client.request_url baseURL "api/solution"
  = Client.request_url baseURL "/api/solution".
Proof.
  intros Hb Ha. split; [now apply loadAllActiveSolutionsList_success|].
  unfold Client.request_url.
  assert (Hne : (baseURL =? "")%string = false) by now apply String.eqb_neq.
  rewrite Hne. split; reflexivity.
Qed.

Lemma loadAllActiveSolutionsList_endpoint_witness :
  loadAllActiveSolutionsList Samples.backend Samples.fresh
  = (Normal (VArr Samples.actives),
     {| store := {| allSolutionsList := VObj ∅;
                    allActiveSolutionsList := VArr Samples.actives |};
        requests := ["api/solution"] |}) /\
  Client.request_url "/" "api/solution" = "/api/solution" /\
  Client.request_url "http://localhost:3000/" "api/solution"
  = "http://localhost:3000/api/solution".
Proof.
  destruct (loadAllActiveSolutionsList_endpoint Samples.backend "/"
              (VArr Samples.actives) Samples.fresh) as (H1 & H2 & _);
    [discriminate | reflexivity |].
  destruct (loadAllActiveSolutionsList_endpoint Samples.backend
              "http://localhost:3000/" (VArr Samples.actives) Samples.fresh)
    as (_ & H3 & _); [discriminate | reflexivity |].
  split; [exact H1|]. split; [exact H2 | exact H3].
Defined.

(** C9. Each mutation writes its payload to one field of the state and
    leaves the other field as it was, and so does the action that commits
    it, whether its request succeeds or not. *)
Theorem mutations_frame :
  (forall (payload : value) (st : State),
     allSolutionsList (snd (PUT_SOLUTION_LIST payload st)) = payload /\
     allActiveSolutionsList (snd (PUT_SOLUTION_LIST payload st))
     = allActiveSolutionsList st) /\
  (forall (payload : value) (st : State),
     allActiveSolutionsList (snd (PUT_ALL_ACTIVE_SOLUTIONS_LIST payload st)) = payload /\
     allSolutionsList (snd (PUT_ALL_ACTIVE_SOLUTIONS_LIST payload st))
     = allSolutionsList st) /\
  (forall axios (id : value) (w : world),
     allActiveSolutionsList (store (snd (loadSolutionsList axios id w)))
     = allActiveSolutionsList (store w)) /\
  (forall axios (w : world),
     allSolutionsList (store (snd (loadAllActiveSolutionsList axios w)))
     = allSolutionsList (store w)).
Proof.
  repeat split.
  - intros axios id w. unfold loadSolutionsList, axios_get, bind.
    destruct (axios _); reflexivity.
  - intros axios w. unfold loadAllActiveSolutionsList, axios_get, bind.
    destruct (axios _); reflexivity.
Qed.

(** The getter throws as long as [allSolutionsList] is the empty object. *)
Lemma getSolutionsListWithCountries_unloaded (st : State) :
  allSolutionsList st = VObj ∅ ->
  getSolutionsListWithCountries st = (Throw TypeError, st).
Proof.
  intros H. unfold getSolutionsListWithCountries.
  rewrite bind_gets, H. reflexivity.
Qed.

(** C10. The initial state is the clean state, whose [allSolutionsList] is
    the empty object. There [getSolutionsList] returns [undefined] and
    [getSolutionsListWithCountries] throws, whatever [allActiveSolutionsList]
    holds; it still throws after [loadAllActiveSolutionsList] has completed
    on the initial state. *)
Theorem merged_getter_unsafe_before_load :
  state = cleanState /\
  allSolutionsList state = VObj ∅ /\
  getSolutionsList state = (Normal VUndefined, state) /\
  getSolutionsListWithCountries state = (Throw TypeError, state) /\
  (forall actives : value,
     getSolutionsListWithCountries (set_allActiveSolutionsList actives state)
     = (Throw TypeError, set_allActiveSolutionsList actives state)) /\
  (forall axios (body : value) (w : world),
     store w = state ->
     axios "api/solution" = Normal {| data := body |} ->
     fst (loadAllActiveSolutionsList axios w) = Normal body /\
     let st := store (snd (loadAllActiveSolutionsList axios w)) in
     allActiveSolutionsList st = body /\
     getSolutionsListWithCountries st = (Throw TypeError, st)).
Proof.
  split; [reflexivity|]. split; [reflexivity|]. split; [reflexivity|].
  split; [reflexivity|]. split.
  - intros actives. now apply getSolutionsListWithCountries_unloaded.
  - intros axios body w Hw Ha.
    rewrite (loadAllActiveSolutionsList_success axios body w Ha). simpl.
    split; [reflexivity|]. split; [reflexivity|].
    apply getSolutionsListWithCountries_unloaded. simpl. now rewrite Hw.
Qed.

Lemma merged_getter_unsafe_before_load_witness :
  Samples.backend "api/solution" = Normal {| data := VArr Samples.actives |} /\
  let st := store (snd (loadAllActiveSolutionsList Samples.backend Samples.fresh)) in
  allActiveSolutionsList st = VArr Samples.actives /\
  getSolutionsListWithCountries st = (Throw TypeError, st).
Proof.
  split; [reflexivity|].
  apply (proj2 (proj2 (proj2 (proj2 (proj2 merged_getter_unsafe_before_load))))
           Samples.backend (VArr Samples.actives) Samples.fresh);
    reflexivity.
Defined.

End StoreActions.

(** ** The team selector: translation between ids and labels *)

Section Translation.
Import JS Notions TeamSelector.

(** The round of both directions of [innerValue]: the first profile whose
    property [k] is [t] is searched, and its property [k'] is read. *)
Local Abbreviation lookup_test k t :=
  (fun profile : JS.value => v <- get_prop profile k ;; ret (strict_eq v t)).

Local Abbreviation lookup_round k k' t :=
  (profiles <- gets userProfiles ;;
   profile <- array_find profiles (lookup_test k t) ;;
   get_prop profile k').

Lemma lookup_test_record k (t p : JS.value) (c : component) :
  is_record p = true ->
  lookup_test k t p c = (Normal (strict_eq (field p k) t), c).
Proof.
  intros Hp. cbv beta.
  now rewrite (bind_normal _ _ _ _ _ (get_prop_record _ _ _ Hp)).
Qed.

Lemma lookup_test_quiet k (t p : JS.value) (c : component) :
  quiet (lookup_test k t p) c.
Proof.
  cbv beta. apply quiet_bind; [apply quiet_get_prop|]. intros v. apply quiet_ret.
Qed.

Lemma lookup_test_differ k (t p : JS.value) (c : component) :
  strict_eq (field p k) t = false ->
  lookup_test k t p c = (Normal false, c)
  \/ lookup_test k t p c = (Throw TypeError, c).
Proof.
  intros Hd.
  destruct p; try (right; reflexivity);
    left; unfold bind; simpl in *; unfold ret; congruence.
Qed.

Lemma lookup_round_quiet k k' (t : JS.value) (c : component) :
  quiet (lookup_round k k' t) c.
Proof.
  apply quiet_bind; [apply quiet_gets|]. intros profiles.
  apply quiet_bind.
  - apply quiet_array_find. intros p. apply lookup_test_quiet.
  - intros profile. apply quiet_get_prop.
Qed.

(** The search for a value that no profile has returns [undefined]. *)
Lemma lookup_missing_undefined k (t : JS.value) profiles (c : component) :
  Forall (fun p => is_record p = true) profiles ->
  (forall p, In p profiles -> strict_eq (field p k) t = false) ->
  array_find (VArr profiles) (lookup_test k t) c = (Normal VUndefined, c).
Proof.
  intros Hr Hno. simpl array_find.
  rewrite (findM_normal _ (fun p => strict_eq (field p k) t) profiles c).
  - destruct (List.find _ profiles) eqn:E; [|reflexivity].
    destruct (find_some _ _ E) as [Hin Ht]. now rewrite (Hno _ Hin) in Ht.
  - intros p Hp. apply lookup_test_record.
    rewrite Forall_forall in Hr. now apply Hr, list_elem_of_In.
Qed.

(** The round for a value that no profile has throws. *)
Lemma lookup_round_missing k k' (t : JS.value) profiles (c : component) :
  userProfiles c = VArr profiles ->
  (forall p, In p profiles -> strict_eq (field p k) t = false) ->
  lookup_round k k' t c = (Throw TypeError, c).
Proof.
  intros Hu Hno. rewrite bind_gets, Hu. simpl array_find.
  destruct (findM_none (lookup_test k t) profiles c
              (fun p Hp => lookup_test_differ k t p c (Hno p Hp)))
    as [Hn|Ht].
  - rewrite (bind_normal _ _ _ _ _ Hn). reflexivity.
  - now apply bind_throw.
Qed.

(** The round for a value that a profile has returns the property of the
    first such profile. *)
Lemma lookup_round_found k k' (t : JS.value) profiles (c : component) p :
  userProfiles c = VArr profiles ->
  Forall (fun p => is_record p = true) profiles ->
  In p profiles -> strict_eq (field p k) t = true ->
  exists p0,
    List.find (fun p => strict_eq (field p k) t) profiles = Some p0 /\
    lookup_round k k' t c = (Normal (field p0 k'), c).
Proof.
  intros Hu Hr Hin Ht.
  destruct (find_exists (fun p => strict_eq (field p k) t) _ _ Hin Ht) as (p0 & Hp0).
  exists p0. split; [exact Hp0|].
  rewrite bind_gets, Hu. simpl array_find.
  rewrite (bind_normal _ _ _ _ _
             (findM_normal _ (fun p => strict_eq (field p k) t) profiles c
                (fun q Hq => lookup_test_record k t q c
                   (proj1 (Forall_forall _ _) Hr q (proj2 (list_elem_of_In _ _) Hq))))).
  rewrite Hp0. simpl. apply get_prop_record.
  rewrite Forall_forall in Hr. apply Hr, list_elem_of_In.
  exact (proj1 (find_some _ _ Hp0)).
Qed.

Lemma strict_eq_refl (v : JS.value) : is_primitive v = true -> strict_eq v v = true.
Proof.
  destruct v as [| |b|n|s| |]; simpl; intros H; try discriminate; try reflexivity.
  - now destruct b.
  - apply Z.eqb_refl.
  - apply String.eqb_refl.
Qed.

Lemma strict_eq_num (v : JS.value) (n : Z) : strict_eq v (VNum n) = true -> v = VNum n.
Proof.
  destruct v; simpl; try discriminate. intros H. f_equal. now apply Z.eqb_eq.
Qed.

(** C4. Let the ids be numbers that each occur in the profile list, a list
    of records whose labels are primitive values (strings) and in which two
    profiles with one label have one id. Then the display direction returns
    one label per id, and the edit direction, given these labels, emits
    [change] with the ids in their order; nothing else of the component
    changes. *)
Theorem innerValue_round_trip
    (c : component) (profiles : list JS.value) (ids : list Z) :
  value c = VArr (map VNum ids) ->
  userProfiles c = VArr profiles ->
  Forall (fun p => is_record p = true) profiles ->
  Forall (fun p => is_primitive (field p "label") = true) profiles ->
  (forall n, In n ids -> exists p, In p profiles /\ field p "id" = VNum n) ->
  (forall p p', In p profiles -> In p' profiles ->
     strict_eq (field p "label") (field p' "label") = true ->
     field p "id" = field p' "id") ->
  exists labels,
    innerValue_get c = (Normal (VArr labels), c) /\
    length labels = length ids /\
    innerValue_set (VArr labels) c
    = (Normal tt,
       {| value := value c;
          userProfiles := userProfiles c;
          filteredOptions := filteredOptions c;
          emitted := emitted c ++ [("change", VArr (map VNum ids))] |}).
Proof.
  intros Hv Hu Hr Hprim Hocc Hlab.
  set (label_of := fun n : Z =>
         field (default VUndefined
                  (List.find (fun p => strict_eq (field p "id") (VNum n)) profiles))
               "label").
  assert (Hround : forall n, In n ids ->
            lookup_round "id" "label" (VNum n) c = (Normal (label_of n), c) /\
            lookup_round "label" "id" (label_of n) c = (Normal (VNum n), c)).
  { intros n Hn. destruct (Hocc n Hn) as (p & Hp & Hid).
    assert (Hpn : strict_eq (field p "id") (VNum n) = true)
      by (rewrite Hid; apply Z.eqb_refl).
    destruct (lookup_round_found "id" "label" (VNum n) profiles c p Hu Hr Hp Hpn)
      as (p0 & Hfind & Hget).
    destruct (find_some _ _ Hfind) as [Hp0 Hid0].
    apply strict_eq_num in Hid0.
    unfold label_of. rewrite Hfind. simpl default. split; [exact Hget|].
    assert (Hl0 : strict_eq (field p0 "label") (field p0 "label") = true).
    { apply strict_eq_refl. rewrite Forall_forall in Hprim.
      now apply Hprim, list_elem_of_In. }
    destruct (lookup_round_found "label" "id" (field p0 "label") profiles c p0
                Hu Hr Hp0 Hl0) as (q & Hfindq & Hset).
    destruct (find_some _ _ Hfindq) as [Hq Hlq].
    rewrite Hset, (Hlab q p0 Hq Hp0 Hlq), Hid0. reflexivity. }
  exists (map label_of ids). split; [|split].
  - unfold innerValue_get. rewrite bind_gets, Hv.
    apply array_map_normal_map. intros n Hn. exact (proj1 (Hround n Hn)).
  - apply length_map.
  - unfold innerValue_set.
    rewrite (bind_normal _ _ _ _ _
               (array_map_normal_map label_of
                  (fun label => lookup_round "label" "id" label) VNum ids c
                  (fun n Hn => proj2 (Hround n Hn)))).
    reflexivity.
Qed.

Lemma innerValue_round_trip_witness :
  exists labels,
    innerValue_get Samples.team = (Normal (VArr labels), Samples.team) /\
    length labels = 2 /\
    innerValue_set (VArr labels) Samples.team
    = (Normal tt,
       {| value := VArr [VNum 2; VNum 1];
          userProfiles := VArr [Samples.alice; Samples.bob];
          filteredOptions := VArr [];
          emitted := [("change", VArr [VNum 2; VNum 1])] |}).
Proof.
  apply (innerValue_round_trip Samples.team [Samples.alice; Samples.bob] [2; 1]%Z).
  - reflexivity.
  - reflexivity.
  - repeat constructor.
  - repeat constructor.
  - intros n [<-|[<-|[]]].
    + exists Samples.bob. split; [right; left; reflexivity | reflexivity].
    + exists Samples.alice. split; [left; reflexivity | reflexivity].
  - intros p p' [<-|[<-|[]]] [<-|[<-|[]]] H;
      first [reflexivity | vm_compute in H; discriminate].
Defined.

(** The labels of the sample team and the event of the way back. *)
Example innerValue_team :
  fst (innerValue_get Samples.team)
  = Normal (VArr [VStr "bob@unicef.org"; VStr "Alice <alice@unicef.org>"]) /\
  emitted (snd (innerValue_set
                  (VArr [VStr "bob@unicef.org"; VStr "Alice <alice@unicef.org>"])
                  Samples.team))
  = [("change", VArr [VNum 2; VNum 1])].
Proof. split; vm_compute; reflexivity. Qed.

(** C4 as it was stated, without the condition on the labels, fails: the id
    5 occurs in the profile list, its label is the label of the profile 4
    too, and the way back emits the id 4. *)
Lemma innerValue_round_trip_namesakes :
  value Samples.namesakes = VArr [VNum 5] /\
  userProfiles Samples.namesakes = VArr [Samples.alice; Samples.sam; Samples.sam'] /\
  field Samples.sam' "id" = VNum 5 /\
  innerValue_get Samples.namesakes = (Normal (VArr [VStr "Sam"]), Samples.namesakes) /\
  emitted (snd (innerValue_set (VArr [VStr "Sam"]) Samples.namesakes))
  = [("change", VArr [VNum 4])] /\
  VArr [VNum 4] <> value Samples.namesakes.
Proof.
  repeat split; try (vm_compute; reflexivity). discriminate.
Qed.

(** C8. With an id that no profile of the list has, the display direction
    throws and leaves the component as it was; when the profiles are
    records, the search for that id returns [undefined], on which the read
    of [label] throws. The edit direction does the same with a label that no
    profile has, and emits nothing. *)
Theorem innerValue_missing (c : component) (profiles : list JS.value) :
  userProfiles c = VArr profiles ->
  (forall (ids : list JS.value) (id : JS.value),
     value c = VArr ids -> In id ids ->
     (forall p, In p profiles -> strict_eq (field p "id") id = false) ->
     innerValue_get c = (Throw TypeError, c) /\
     (Forall (fun p => is_record p = true) profiles ->
      array_find (VArr profiles)
        (fun profile => v <- get_prop profile "id" ;; ret (strict_eq v id)) c
      = (Normal VUndefined, c)) /\
     get_prop VUndefined "label" c = (Throw TypeError, c)) /\
  (forall (labels : list JS.value) (label : JS.value),
     In label labels ->
     (forall p, In p profiles -> strict_eq (field p "label") label = false) ->
     innerValue_set (VArr labels) c = (Throw TypeError, c) /\
     (Forall (fun p => is_record p = true) profiles ->
      array_find (VArr profiles)
        (fun profile => v <- get_prop profile "label" ;; ret (strict_eq v label)) c
      = (Normal VUndefined, c)) /\
     get_prop VUndefined "id" c = (Throw TypeError, c)).
Proof.
  intros Hu. split.
  - intros ids id Hv Hin Hno. split; [|split].
    + unfold innerValue_get. rewrite bind_gets, Hv.
      apply array_map_throw with (x := id);
        [intros y; apply (lookup_round_quiet "id" "label") | exact Hin |].
      now apply (lookup_round_missing "id" "label" id profiles).
    + intros Hr. now apply (lookup_missing_undefined "id").
    + reflexivity.
  - intros labels label Hin Hno. split; [|split].
    + unfold innerValue_set. apply bind_throw.
      apply array_map_throw with (x := label);
        [intros y; apply (lookup_round_quiet "label" "id") | exact Hin |].
      now apply (lookup_round_missing "label" "id" label profiles).
    + intros Hr. now apply (lookup_missing_undefined "label").
    + reflexivity.
Qed.

Lemma innerValue_missing_witness :
  let c := data (VArr [VNum 2; VNum 7]) (VArr [Samples.alice; Samples.bob]) in
  innerValue_get c = (Throw TypeError, c) /\
  innerValue_set (VArr [VStr "bob@unicef.org"; VStr "carol@unicef.org"]) c
  = (Throw TypeError, c).
Proof.
  intros c.
  destruct (innerValue_missing c [Samples.alice; Samples.bob] eq_refl) as [Hget Hset].
  split.
  - apply (Hget [VNum 2; VNum 7] (VNum 7) eq_refl).
    + right; left; reflexivity.
    + intros p [<-|[<-|[]]]; reflexivity.
  - apply (Hset [VStr "bob@unicef.org"; VStr "carol@unicef.org"]
             (VStr "carol@unicef.org")).
    + right; left; reflexivity.
    + intros p [<-|[<-|[]]]; reflexivity.
Defined.

End Translation.

(** ** The team selector: the search *)

Section Search.
Import JS Notions TeamSelector.

(** The [toLowerCase] of the runtime, whatever it computes. *)
Variable toLowerCase : string -> string.

Local Abbreviation filter := (TeamSelector.filter toLowerCase).
Local Abbreviation filterMethod := (TeamSelector.filterMethod toLowerCase).
Local Abbreviation ci_prefix_of := (Notions.ci_prefix_of toLowerCase).
Local Abbreviation starts_with_ci := (Notions.starts_with_ci toLowerCase).
Local Abbreviation matches := (Notions.matches toLowerCase).

Lemma starts_with_ci_spec (q : string) (v : JS.value) :
  starts_with_ci q v = true <-> ci_prefix_of q v.
Proof.
  destruct v; simpl;
    try (split; [discriminate | intros (s' & [=] & _)]).
  split.
  - intros H. now exists s.
  - now intros (s' & [= <-] & H).
Qed.

Lemma matches_spec (q : string) (p : JS.value) :
  matches q p = true <->
  ci_prefix_of q (field p "name") \/ ci_prefix_of q (field p "email").
Proof.
  unfold Notions.matches. rewrite orb_true_iff.
  now rewrite !starts_with_ci_spec.
Qed.

(** The test of [filter] on strings. *)
Lemma filter_strings (s q : string) (c : component) :
  filter (VStr s) (VStr q) c
  = (Normal (startsWith (toLowerCase s) (toLowerCase q)), c).
Proof. reflexivity. Qed.

(** Two facts of [toLowerCase]: the lower-case form of the empty string is
    empty, and that of no other string is. *)
Hypothesis toLowerCase_empty : toLowerCase "" = "".
Hypothesis toLowerCase_nonempty : forall s, s <> "" -> toLowerCase s <> "".

(** Nothing but the empty string starts the empty string. *)
Lemma startsWith_empty (q : string) :
  q <> "" -> startsWith (toLowerCase "") (toLowerCase q) = false.
Proof.
  intros Hq. rewrite toLowerCase_empty. unfold startsWith.
  destruct (toLowerCase q) eqn:E; [|reflexivity].
  now destruct (toLowerCase_nonempty q Hq).
Qed.

(** On a searchable profile the callback of [filterMethod] returns what
    [matches] tells. *)
Lemma search_round (q : string) (p : JS.value) (c : component) :
  q <> "" -> searchable p = true ->
  (name <- get_prop p "name" ;;
   val <- (if truthy name then get_prop p "name" else get_prop p "email") ;;
   left <- filter val (VStr q) ;;
   if left then ret true
   else
     email <- get_prop p "email" ;;
     if truthy email then
       email' <- get_prop p "email" ;;
       filter email' (VStr q)
     else ret false) c
  = (Normal (matches q p), c).
Proof.
  intros Hq Hs. unfold searchable in Hs.
  apply andb_true_iff in Hs as [Hrec Hs].
  rewrite (bind_normal _ _ _ _ _ (get_prop_record p "name" c Hrec)).
  unfold Notions.matches.
  assert (Hname : forall k, @get_prop component p k = ret (field p k))
    by (intros k; destruct p; try discriminate; reflexivity).
  rewrite !Hname.
  generalize dependent (field p "email"). generalize dependent (field p "name").
  intros n e Hs.
  destruct (truthy n) eqn:Hn.
  - apply andb_true_iff in Hs as [Hsn Hse].
    destruct n as [| | | |sn| |]; try discriminate.
    unfold bind at 1. unfold ret at 1. unfold bind at 1. rewrite filter_strings.
    cbn [Notions.starts_with_ci].
    destruct (startsWith (toLowerCase sn) (toLowerCase q)); [reflexivity|].
    unfold bind, ret. simpl orb.
    destruct (truthy e) eqn:He.
    + destruct e as [| | | |se| |]; try discriminate. reflexivity.
    + destruct e as [| | | |se| |]; try discriminate; try reflexivity.
      simpl in He. apply negb_false_iff, String.eqb_eq in He. subst se.
      unfold Notions.starts_with_ci. now rewrite (startsWith_empty q Hq).
  - destruct e as [| | | |se| |]; try discriminate.
    unfold bind at 1. unfold ret at 1. unfold bind at 1. rewrite filter_strings.
    assert (Hn0 : starts_with_ci q n = false).
    { destruct n as [| | | |sn| |]; try reflexivity.
      simpl in Hn. apply negb_false_iff, String.eqb_eq in Hn. subst sn.
      unfold Notions.starts_with_ci. now apply startsWith_empty. }
    rewrite Hn0. cbn [Notions.starts_with_ci orb].
    destruct (startsWith (toLowerCase se) (toLowerCase q)) eqn:E; [reflexivity|].
    unfold bind, ret.
    destruct (truthy (VStr se)); [|reflexivity].
    cbv beta. rewrite filter_strings. now rewrite E.
Qed.

(** On a list of searchable profiles a non-empty query selects the profiles
    that [matches] tells, in their order. *)
Lemma filterMethod_searchable (c : component) (profiles : list JS.value) (q : string) :
  q <> "" ->
  userProfiles c = VArr profiles ->
  Forall (fun p => searchable p = true) profiles ->
  filterMethod (VStr q) c
  = (Normal tt, set_filteredOptions (VArr (List.filter (matches q) profiles)) c).
Proof.
  intros Hq Hu Hs. unfold TeamSelector.filterMethod.
  assert (Ht : truthy (VStr q) = true) by (destruct q; [congruence | reflexivity]).
  rewrite Ht, bind_gets, Hu.
  rewrite (bind_normal _ _ _ _ _
             (array_filter_normal _ (matches q) profiles c
                (fun p Hp => search_round q p c Hq
                   (proj1 (Forall_forall _ _) Hs p (proj2 (list_elem_of_In _ _) Hp))))).
  reflexivity.
Qed.

(** C5. For a non-empty query and a list of searchable profiles,
    [filterMethod] sets [filteredOptions] to an array that holds a profile of
    the list if and only if the query is a prefix, up to the case of the
    letters, of the name or of the email of the profile. This holds for
    every [toLowerCase] that maps the empty string, and no other, to the
    empty string. *)
Theorem filterMethod_prefix_search
    (c : component) (profiles : list JS.value) (q : string) :
  q <> "" ->
  userProfiles c = VArr profiles ->
  Forall (fun p => searchable p = true) profiles ->
  exists options,
    filterMethod (VStr q) c = (Normal tt, set_filteredOptions (VArr options) c) /\
    forall p,
      In p options <->
      In p profiles /\
      (ci_prefix_of q (field p "name") \/ ci_prefix_of q (field p "email")).
Proof.
  intros Hq Hu Hs. exists (List.filter (matches q) profiles). split.
  - now apply filterMethod_searchable.
  - intros p. now rewrite filter_In, matches_spec.
Qed.

(** C6. A falsy query sets [filteredOptions] to the empty array, whatever
    the profile list holds; so does a non-empty query that is a prefix, up to
    the case of the letters, of no name and of no email of a list of
    searchable profiles. This holds for every [toLowerCase] that maps the
    empty string, and no other, to the empty string. *)
Theorem filterMethod_empty :
  (forall (query : JS.value) (c : component),
     truthy query = false ->
     filterMethod query c = (Normal tt, set_filteredOptions (VArr []) c)) /\
  (forall (c : component) (profiles : list JS.value) (q : string),
     q <> "" ->
     userProfiles c = VArr profiles ->
     Forall (fun p => searchable p = true) profiles ->
     (forall p, In p profiles ->
        ~ ci_prefix_of q (field p "name") /\ ~ ci_prefix_of q (field p "email")) ->
     filterMethod (VStr q) c = (Normal tt, set_filteredOptions (VArr []) c)).
Proof.
  split.
  - intros query c Hf. unfold TeamSelector.filterMethod. now rewrite Hf.
  - intros c profiles q Hq Hu Hs Hno.
    rewrite (filterMethod_searchable c profiles q Hq Hu Hs).
    rewrite filter_none; [reflexivity|].
    intros p Hp. destruct (matches q p) eqn:E; [|reflexivity].
    apply matches_spec in E. destruct (Hno p Hp) as [Hn He]. tauto.
Qed.

End Search.

(** ** The team selector: the search on Latin-1 text *)

Section SearchLatin1.
Import JS Notions TeamSelector.

Lemma Latin1_toLowerCase_empty : Latin1.toLowerCase "" = "".
Proof. reflexivity. Qed.

Lemma Latin1_toLowerCase_nonempty (s : string) :
  s <> "" -> Latin1.toLowerCase s <> "".
Proof. destruct s; [congruence | discriminate]. Qed.

Lemma filterMethod_prefix_search_witness :
  exists options,
    filterMethod Latin1.toLowerCase (VStr (String "233" "L")) MoreSamples.with_elodie
    = (Normal tt, set_filteredOptions (VArr options) MoreSamples.with_elodie) /\
    forall p,
      In p options <->
      In p [Samples.alice; MoreSamples.elodie] /\
      (ci_prefix_of Latin1.toLowerCase (String "233" "L") (field p "name") \/
       ci_prefix_of Latin1.toLowerCase (String "233" "L") (field p "email")).
Proof.
  apply (filterMethod_prefix_search Latin1.toLowerCase
           Latin1_toLowerCase_empty Latin1_toLowerCase_nonempty
           MoreSamples.with_elodie [Samples.alice; MoreSamples.elodie]
           (String "233" "L")).
  - discriminate.
  - reflexivity.
  - repeat constructor.
Defined.

(** The query [AL] selects Alice; the query [LICE], which occurs in her name
    and in her email from the second character on, selects nobody; the small
    e with an acute accent selects the name that starts with the capital. *)
Example filterMethod_team :
  filteredOptions (snd (filterMethod Latin1.toLowerCase (VStr "AL") Samples.team))
  = VArr [Samples.alice] /\
  ci_occurs_at Latin1.toLowerCase 1 "LICE" "Alice" /\
  ci_occurs_at Latin1.toLowerCase 1 "LICE" "alice@unicef.org" /\
  filteredOptions (snd (filterMethod Latin1.toLowerCase (VStr "LICE") Samples.team))
  = VArr [] /\
  filteredOptions
    (snd (filterMethod Latin1.toLowerCase (VStr (String "233" ""))
            MoreSamples.with_elodie))
  = VArr [MoreSamples.elodie].
Proof. repeat split; vm_compute; reflexivity. Qed.

(** C5 as it was stated, for every profile list, fails: with the anonymous
    profile in the list the search throws, and Alice, whose name starts with
    the query, is not in [filteredOptions]. *)
Lemma filterMethod_prefix_search_anonymous :
  let c := Samples.team_with_anonymous in
  userProfiles c = VArr [Samples.alice; Samples.bob; Samples.anonymous] /\
  filterMethod Latin1.toLowerCase (VStr "al") c = (Throw TypeError, c) /\
  ~ (forall p,
       In p (elements (filteredOptions
                         (snd (filterMethod Latin1.toLowerCase (VStr "al") c)))) <->
       In p (elements (userProfiles c)) /\
       (ci_prefix_of Latin1.toLowerCase "al" (field p "name") \/
        ci_prefix_of Latin1.toLowerCase "al" (field p "email"))).
Proof.
  intros c. split; [reflexivity|]. split; [vm_compute; reflexivity|].
  intros H. destruct (proj2 (H Samples.alice)) as [].
  split; [left; reflexivity|]. left.
  apply starts_with_ci_spec. vm_compute. reflexivity.
Qed.

Lemma filterMethod_empty_witness :
  let c := set_filteredOptions (VArr [Samples.alice]) Samples.team in
  filterMethod Latin1.toLowerCase (VStr "") c
  = (Normal tt, set_filteredOptions (VArr []) c) /\
  filterMethod Latin1.toLowerCase VUndefined c
  = (Normal tt, set_filteredOptions (VArr []) c) /\
  filterMethod Latin1.toLowerCase (VStr "zz") c
  = (Normal tt, set_filteredOptions (VArr []) c).
Proof.
  intros c.
  destruct (filterMethod_empty Latin1.toLowerCase
              Latin1_toLowerCase_empty Latin1_toLowerCase_nonempty)
    as [Hfalsy Hnone].
  split; [apply Hfalsy; reflexivity|].
  split; [apply Hfalsy; reflexivity|].
  apply (Hnone c [Samples.alice; Samples.bob] "zz").
  - discriminate.
  - reflexivity.
  - repeat constructor.
  - intros p [<-|[<-|[]]]; split; intros H;
      apply starts_with_ci_spec in H; vm_compute in H; discriminate.
Defined.

(** The second half of C6 as it was stated, for every profile list, fails:
    with the anonymous profile in the list, a query that starts no name and
    no email makes the search throw, and the options of an earlier search
    stay. *)
Lemma filterMethod_empty_anonymous :
  let c := set_filteredOptions (VArr [Samples.bob]) Samples.team_with_anonymous in
  (forall p, In p (elements (userProfiles c)) ->
     ~ ci_prefix_of Latin1.toLowerCase "zz" (field p "name") /\
     ~ ci_prefix_of Latin1.toLowerCase "zz" (field p "email")) /\
  filterMethod Latin1.toLowerCase (VStr "zz") c = (Throw TypeError, c) /\
  filterMethod Latin1.toLowerCase (VStr "zz") c
  <> (Normal tt, set_filteredOptions (VArr []) c) /\
  filteredOptions (snd (filterMethod Latin1.toLowerCase (VStr "zz") c)) <> VArr [].
Proof.
  intros c. split; [|split; [|split]].
  - intros p [<-|[<-|[<-|[]]]]; split; intros H;
      apply starts_with_ci_spec in H; vm_compute in H; discriminate.
  - vm_compute; reflexivity.
  - vm_compute. discriminate.
  - vm_compute. discriminate.
Qed.

End SearchLatin1.

(** ** Evaluations that return *)

Section Outcomes.
Import JS Notions Views.
Context {S : Type}.

Lemma quiet_mapM {A B} (f : A -> M S B) l (s : S) :
  (forall x, quiet (f x) s) -> quiet (mapM f l) s.
Proof.
  intros Hf. induction l as [|x l IH]; simpl.
  - apply quiet_ret.
  - apply quiet_bind; [apply Hf|]. intros y.
    apply quiet_bind; [apply IH|]. intros ys. apply quiet_ret.
Qed.

Lemma quiet_array_map recv (cb : value -> M S value) (s : S) :
  (forall x, quiet (cb x) s) -> quiet (array_map recv cb) s.
Proof.
  intros Hf. destruct recv; simpl; try apply quiet_throw.
  apply quiet_bind; [now apply quiet_mapM|]. intros ys. apply quiet_ret.
Qed.

Lemma quiet_filterM (p : value -> M S bool) l (s : S) :
  (forall x, quiet (p x) s) -> quiet (filterM p l) s.
Proof.
  intros Hp. induction l as [|x l IH]; simpl.
  - apply quiet_ret.
  - apply quiet_bind; [apply Hp|]. intros b.
    apply quiet_bind; [apply IH|]. intros ys. apply quiet_ret.
Qed.

(** What a quiet evaluation that returned has done. *)
Lemma quiet_normal {A} (m : M S A) (s s' : S) (a : A) :
  quiet m s -> m s = (Normal a, s') -> s' = s.
Proof. intros [[b Hb]|Ht] H; congruence. Qed.

Lemma bind_normal_inv {A B} (m : M S A) (k : A -> M S B) (s s' : S) (b : B) :
  bind m k s = (Normal b, s') ->
  exists a s1, m s = (Normal a, s1) /\ k a s1 = (Normal b, s').
Proof.
  unfold bind. destruct (m s) as [[a|e] s1]; [eauto | discriminate].
Qed.

(** A loop that returned has run every round, each on its element. *)
Lemma mapM_inv {A B} (f : A -> M S B) l (s s' : S) ys :
  (forall x, quiet (f x) s) ->
  mapM f l s = (Normal ys, s') ->
  s' = s /\ Forall2 (fun x y => f x s = (Normal y, s)) l ys.
Proof.
  intros Hf. revert ys s'. induction l as [|x l IH]; simpl; intros ys s' H.
  - injection H as <- <-. split; [reflexivity | constructor].
  - apply bind_normal_inv in H as (y & s1 & Hy & H).
    assert (s1 = s) by exact (quiet_normal _ _ _ _ (Hf x) Hy). subst s1.
    apply bind_normal_inv in H as (ys' & s2 & Hys & H).
    destruct (IH _ _ Hys) as [-> HF]. injection H as <- <-.
    split; [reflexivity | now constructor].
Qed.

Lemma array_map_inv recv (cb : value -> M S value) (s s' : S) v :
  (forall x, quiet (cb x) s) ->
  array_map recv cb s = (Normal v, s') ->
  s' = s /\
  exists l ys, recv = VArr l /\ v = VArr ys /\
               Forall2 (fun x y => cb x s = (Normal y, s)) l ys.
Proof.
  intros Hf H. destruct recv; try discriminate. simpl in H.
  apply bind_normal_inv in H as (ys & s1 & Hys & H).
  destruct (mapM_inv _ _ _ _ _ Hf Hys) as [-> HF]. injection H as <- <-.
  split; [reflexivity|]. eauto.
Qed.

(** A search that returned has found the first element that passes the
    test, or it has seen every element fail and returned [undefined]. *)
Lemma findM_inv (p : value -> M S bool) l (s s' : S) v :
  (forall x, quiet (p x) s) ->
  findM p l s = (Normal v, s') ->
  s' = s /\
  ((v = VUndefined /\ forall x, In x l -> p x s = (Normal false, s)) \/
   exists l1 l2, l = (l1 ++ v :: l2)%list /\ p v s = (Normal true, s) /\
                 forall y, In y l1 -> p y s = (Normal false, s)).
Proof.
  intros Hp. induction l as [|x l IH]; simpl; intros H.
  - injection H as <- <-. split; [reflexivity|]. left. split; [reflexivity|].
    intros ? [].
  - apply bind_normal_inv in H as (b & s1 & Hb & H).
    assert (s1 = s) by exact (quiet_normal _ _ _ _ (Hp x) Hb). subst s1.
    destruct b.
    + injection H as <- <-. split; [reflexivity|]. right.
      exists [], l. repeat split; [exact Hb|]. intros ? [].
    + destruct (IH H) as [-> [[-> Hall]|(l1 & l2 & -> & Hv & Hl1)]];
        (split; [reflexivity|]).
      * left. split; [reflexivity|]. intros y [<-|Hy]; [exact Hb | now apply Hall].
      * right. exists (x :: l1), l2. repeat split; [exact Hv|].
        intros y [<-|Hy]; [exact Hb | now apply Hl1].
Qed.

(** A filter either throws or keeps some of the elements, in their order. *)
Lemma filterM_outcome (p : value -> M S bool) l (s : S) :
  (forall x, quiet (p x) s) ->
  filterM p l s = (Throw TypeError, s) \/
  exists ys, filterM p l s = (Normal ys, s) /\ sublist ys l.
Proof.
  intros Hp. induction l as [|x l IH]; simpl.
  - right. exists []. split; [reflexivity | constructor].
  - destruct (Hp x) as [[b Hb]|Ht].
    + rewrite (bind_normal _ _ _ _ _ Hb).
      destruct IH as [Ht|(ys & Hys & Hsub)].
      * left. now rewrite (bind_throw _ _ _ _ _ Ht).
      * right. rewrite (bind_normal _ _ _ _ _ Hys).
        exists (if b then x :: ys else ys). split; [reflexivity|].
        destruct b; now constructor.
    + left. now apply bind_throw.
Qed.

End Outcomes.

(** ** The solutions store: outcomes of the getters and sequences of loads *)

Section StoreViews.
Import JS Notions Views SolutionStore.

Local Abbreviation id_test solution :=
  (fun activeSolution : value =>
     a <- get_prop activeSolution "id" ;;
     b <- get_prop solution "id" ;;
     ret (strict_eq a b)).

Local Abbreviation merge_round :=
  (fun solution : value =>
     let copy := own_props solution in
     actives <- gets allActiveSolutionsList ;;
     found <- array_find actives (id_test solution) ;;
     countries <- get_prop found "countries" ;;
     ret (VObj (<["countries" := countries]> copy))).

Lemma first_such_find (g : value -> bool) l x :
  first_such g l x -> List.find g l = Some x.
Proof.
  intros (l1 & l2 & -> & Hx & Hl1). induction l1 as [|y l1 IH]; simpl.
  - now rewrite Hx.
  - rewrite (Hl1 y (or_introl eq_refl)). apply IH.
    intros z Hz. apply Hl1. now right.
Qed.

(** The test of the search, when it returns, tells whether the ids are the
    same, and it has run on a value that is neither [undefined] nor [null]. *)
Lemma id_test_inv (solution activeSolution : value) (st st' : State) b :
  id_test solution activeSolution st = (Normal b, st') ->
  b = same_id activeSolution solution /\ is_nullish activeSolution = false.
Proof.
  cbv beta. unfold bind, same_id.
  destruct activeSolution; simpl; try discriminate;
    destruct solution; simpl; try discriminate;
    intros [= <- <-]; split; reflexivity.
Qed.

Lemma get_prop_not_nullish (v : value) k (st : State) :
  is_nullish v = false -> get_prop v k st = (Normal (field v k), st).
Proof. destruct v; simpl; intros H; try discriminate; reflexivity. Qed.

(** A round of the loop that returned has found the first active solution
    with the id of the solution. *)
Lemma merge_round_inv (solution y : value) (st st' : State) :
  merge_round solution st = (Normal y, st') ->
  first_such (fun a => same_id a solution)
    (elements (allActiveSolutionsList st))
    (default VUndefined
       (List.find (fun a => same_id a solution)
          (elements (allActiveSolutionsList st)))) /\
  y = merge_countries (elements (allActiveSolutionsList st)) solution.
Proof.
  cbv beta zeta. rewrite bind_gets. intros H.
  apply bind_normal_inv in H as (found & s1 & Hfind & H).
  destruct (allActiveSolutionsList st) as [| | | | |actives|];
    try discriminate Hfind.
  simpl array_find in Hfind. simpl elements.
  destruct (findM_inv _ _ _ _ _ (fun a => id_test_quiet solution a st) Hfind)
    as [-> [[-> _]|(l1 & l2 & Hl & Hv & Hl1)]]; [discriminate H|].
  destruct (id_test_inv _ _ _ _ _ Hv) as [Hid Hnn].
  assert (Hfirst : first_such (fun a => same_id a solution) actives found).
  { exists l1, l2. repeat split; [exact Hl | now symmetry |].
    intros z Hz. symmetry. exact (proj1 (id_test_inv _ _ _ _ _ (Hl1 z Hz))). }
  rewrite (bind_normal _ _ _ _ _ (get_prop_not_nullish found "countries" st Hnn)) in H.
  injection H as <- <-. unfold merge_countries.
  rewrite (first_such_find _ _ _ Hfirst). simpl. split; [exact Hfirst | reflexivity].
Qed.

(** X1. The merged getter either throws a [TypeError] or returns, for the array
    of solutions, the array of their merged records, and then every solution
    has an active solution with its id. Either way the state is left as it
    was. *)
Theorem getSolutionsListWithCountries_outcome (st : State) :
  getSolutionsListWithCountries st = (Throw TypeError, st) \/
  exists solutions,
    field (allSolutionsList st) "solutions" = VArr solutions /\
    getSolutionsListWithCountries st
    = (Normal (VArr (map (merge_countries (elements (allActiveSolutionsList st)))
                       solutions)), st) /\
    forall solution, In solution solutions ->
      exists a, In a (elements (allActiveSolutionsList st)) /\
                same_id a solution = true.
Proof.
  assert (Hq : quiet getSolutionsListWithCountries st).
  { unfold getSolutionsListWithCountries.
    apply quiet_bind; [apply quiet_gets|]. intros l.
    apply quiet_bind; [apply quiet_get_prop|]. intros sols.
    apply quiet_bind; [|intros v; apply quiet_ret].
    apply quiet_array_map. intros x. apply merge_round_quiet. }
  destruct Hq as [[v Hv]|Ht]; [right | now left].
  rewrite Hv. unfold getSolutionsListWithCountries in Hv.
  rewrite bind_gets in Hv.
  apply bind_normal_inv in Hv as (sols & s1 & Hsols & Hv).
  assert (Hnn : is_nullish (allSolutionsList st) = false)
    by (destruct (allSolutionsList st); try discriminate Hsols; reflexivity).
  rewrite (get_prop_not_nullish _ _ _ Hnn) in Hsols. injection Hsols as <- <-.
  apply bind_normal_inv in Hv as (v' & s2 & Hmap & Hv). injection Hv as <- _.
  destruct (array_map_inv _ _ _ _ _ (fun x => merge_round_quiet x st) Hmap)
    as [-> (solutions & ys & Hs & -> & HF)].
  exists solutions. split; [exact Hs|].
  assert (Hys : ys = map (merge_countries (elements (allActiveSolutionsList st)))
                       solutions).
  { clear Hmap Hs. induction HF as [|x y l ys Hxy HF IH]; simpl; [reflexivity|].
    rewrite IH. f_equal. exact (proj2 (merge_round_inv _ _ _ _ Hxy)). }
  split; [now rewrite Hys|].
  intros solution Hin. clear Hmap Hs Hys.
  induction HF as [|x y l ys Hxy HF IH]; [destruct Hin|].
  destruct Hin as [<-|Hin]; [|now apply IH].
  destruct (merge_round_inv _ _ _ _ Hxy) as [(l1 & l2 & Hl & Hg & _) _].
  remember (default VUndefined
              (List.find (fun a => same_id a x)
                 (elements (allActiveSolutionsList st)))) as a eqn:Ea.
  exists a. split; [|exact Hg]. rewrite Hl. apply in_elt.
Qed.

(** The value of the merged getter on records that are all matched. *)
Lemma merged_getter_value (st : State) (solutions actives : list value) :
  field (allSolutionsList st) "solutions" = VArr solutions ->
  allActiveSolutionsList st = VArr actives ->
  Forall (fun v => is_record v = true) solutions ->
  Forall (fun v => is_record v = true) actives ->
  (forall solution, In solution solutions ->
     exists a, In a actives /\ same_id a solution = true) ->
  getSolutionsListWithCountries st
  = (Normal (VArr (map (merge_countries actives) solutions)), st).
Proof.
  intros Hsol Hact Hrs Hra Hin.
  unfold getSolutionsListWithCountries. rewrite bind_gets.
  assert (Hl : is_record (allSolutionsList st) = true)
    by (destruct (allSolutionsList st); simpl in Hsol; try discriminate; reflexivity).
  rewrite (bind_normal _ _ _ _ _ (get_prop_record _ "solutions" st Hl)), Hsol.
  assert (Hloop : array_map (VArr solutions) merge_round st
                  = (Normal (VArr (map (merge_countries actives) solutions)), st)).
  { apply array_map_normal. intros solution Hs. cbv zeta.
    rewrite bind_gets, Hact. simpl array_find.
    assert (Hrec : is_record solution = true)
      by (rewrite Forall_forall in Hrs; apply Hrs; now apply list_elem_of_In).
    rewrite (bind_normal _ _ _ _ _
               (findM_normal _ (fun a => same_id a solution) actives st
                  (fun a Ha => id_test_record solution a st Hrec
                     (proj1 (Forall_forall _ _) Hra a
                        (proj2 (list_elem_of_In _ _) Ha))))).
    destruct (Hin solution Hs) as (a & Ha & Hid).
    destruct (find_exists (fun a => same_id a solution) _ _ Ha Hid) as (y & Hy).
    unfold merge_countries. rewrite Hy. simpl default.
    assert (Hp : is_record y = true).
    { rewrite Forall_forall in Hra. apply Hra, list_elem_of_In.
      exact (proj1 (find_some _ _ Hy)). }
    now rewrite (bind_normal _ _ _ _ _ (get_prop_record _ "countries" st Hp)). }
  now rewrite (bind_normal _ _ _ _ _ Hloop).
Qed.


(** X2. The shape of the state decides the first outcomes of the merged getter:
    without an array under [solutions] it throws; on the empty array it
    returns the empty array, whatever the active list is; on a non-empty
    array it throws when the active list is not an array or is empty. *)
Theorem getSolutionsListWithCountries_shapes (st : State) :
  (is_array (field (allSolutionsList st) "solutions") = false ->
   getSolutionsListWithCountries st = (Throw TypeError, st)) /\
  (field (allSolutionsList st) "solutions" = VArr [] ->
   getSolutionsListWithCountries st = (Normal (VArr []), st)) /\
  (forall solution solutions,
     field (allSolutionsList st) "solutions" = VArr (solution :: solutions) ->
     is_array (allActiveSolutionsList st) = false \/
     allActiveSolutionsList st = VArr [] ->
     getSolutionsListWithCountries st = (Throw TypeError, st)).
Proof.
  split; [|split].
  - intros Hna. unfold getSolutionsListWithCountries. rewrite bind_gets.
    destruct (is_nullish (allSolutionsList st)) eqn:Hn.
    + destruct (allSolutionsList st); try discriminate Hn; reflexivity.
    + rewrite (bind_normal _ _ _ _ _ (get_prop_not_nullish _ "solutions" st Hn)).
      destruct (field (allSolutionsList st) "solutions");
        try discriminate Hna; reflexivity.
  - intros He. unfold getSolutionsListWithCountries. rewrite bind_gets.
    assert (Hn : is_nullish (allSolutionsList st) = false)
      by (destruct (allSolutionsList st); try discriminate He; reflexivity).
    rewrite (bind_normal _ _ _ _ _ (get_prop_not_nullish _ "solutions" st Hn)), He.
    reflexivity.
  - intros solution solutions Hs Ha.
    unfold getSolutionsListWithCountries. rewrite bind_gets.
    assert (Hn : is_nullish (allSolutionsList st) = false)
      by (destruct (allSolutionsList st); try discriminate Hs; reflexivity).
    rewrite (bind_normal _ _ _ _ _ (get_prop_not_nullish _ "solutions" st Hn)), Hs.
    apply bind_throw. simpl array_map. apply bind_throw. simpl mapM.
    apply bind_throw. cbv zeta. rewrite bind_gets.
    destruct Ha as [Ha|Ha].
    + destruct (allActiveSolutionsList st); try discriminate Ha; reflexivity.
    + rewrite Ha. reflexivity.
Qed.

Lemma getSolutionsListWithCountries_shapes_witness :
  getSolutionsListWithCountries
    {| allSolutionsList := obj [("name", VStr "Health")];
       allActiveSolutionsList := VArr Samples.actives |}
  = (Throw TypeError,
     {| allSolutionsList := obj [("name", VStr "Health")];
        allActiveSolutionsList := VArr Samples.actives |}) /\
  getSolutionsListWithCountries
    {| allSolutionsList := obj [("solutions", VArr [])];
       allActiveSolutionsList := VNull |}
  = (Normal (VArr []),
     {| allSolutionsList := obj [("solutions", VArr [])];
        allActiveSolutionsList := VNull |}) /\
  getSolutionsListWithCountries
    {| allSolutionsList := obj [("solutions", VArr Samples.solutions)];
       allActiveSolutionsList := VArr [] |}
  = (Throw TypeError,
     {| allSolutionsList := obj [("solutions", VArr Samples.solutions)];
        allActiveSolutionsList := VArr [] |}).
Proof.
  split; [|split].
  - apply (proj1 (getSolutionsListWithCountries_shapes _)). reflexivity.
  - apply (proj1 (proj2 (getSolutionsListWithCountries_shapes _))). reflexivity.
  - eapply (proj2 (proj2 (getSolutionsListWithCountries_shapes _)));
      [reflexivity | right; reflexivity].
Defined.

(** X3. A request that is rejected: the action throws the rejection after one
    request, commits nothing and leaves the store as it was. *)
Theorem loads_reject axios (e : exn) (w : world) :
  (forall id : value,
     axios ("/api/portfolio/" +:+ to_string id) = Throw e ->
     loadSolutionsList axios id w
     = (Throw e,
        {| store := store w;
           requests := requests w ++ ["/api/portfolio/" +:+ to_string id] |})) /\
  (axios "api/solution" = Throw e ->
   loadAllActiveSolutionsList axios w
   = (Throw e,
      {| store := store w; requests := requests w ++ ["api/solution"] |})).
Proof.
  split.
  - intros id H. unfold loadSolutionsList, axios_get, bind. now rewrite H.
  - intros H. unfold loadAllActiveSolutionsList, axios_get, bind. now rewrite H.
Qed.

Lemma loads_reject_witness :
  loadSolutionsList MoreSamples.offline (VNum 12) Samples.fresh
  = (Throw AxiosError,
     {| store := state; requests := ["/api/portfolio/12"] |}) /\
  loadAllActiveSolutionsList MoreSamples.offline Samples.fresh
  = (Throw AxiosError, {| store := state; requests := ["api/solution"] |}).
Proof.
  destruct (loads_reject MoreSamples.offline AxiosError Samples.fresh) as [H1 H2].
  split; [apply (H1 (VNum 12)) | apply H2]; reflexivity.
Defined.

(** X4. The two loads write apart: whatever the backend answers, the store after
    the one and then the other is the store after them in the other order. *)
Theorem loads_commute axios (id : value) (w : world) :
  store (snd (loadAllActiveSolutionsList axios (snd (loadSolutionsList axios id w))))
  = store (snd (loadSolutionsList axios id (snd (loadAllActiveSolutionsList axios w)))).
Proof.
  unfold loadSolutionsList, loadAllActiveSolutionsList, axios_get, bind. simpl.
  destruct (axios ("/api/portfolio/" +:+ to_string id));
    destruct (axios "api/solution"); reflexivity.
Qed.

(** X5. After a load that succeeded, [getSolutionsList] returns the [solutions]
    of the body; it throws when the body is [null] or [undefined]. *)
Theorem getSolutionsList_after_load axios (id body : value) (w : world) :
  axios ("/api/portfolio/" +:+ to_string id) = Normal {| data := body |} ->
  let st := store (snd (loadSolutionsList axios id w)) in
  getSolutionsList st
  = (if is_nullish body then Throw TypeError else Normal (field body "solutions"),
     st).
Proof.
  intros H. unfold loadSolutionsList, axios_get, bind. rewrite H. simpl.
  unfold getSolutionsList. rewrite bind_gets. simpl.
  destruct body; reflexivity.
Qed.

Lemma getSolutionsList_after_load_witness :
  fst (getSolutionsList
         (store (snd (loadSolutionsList Samples.backend (VNum 12) Samples.fresh))))
  = Normal (VArr Samples.solutions) /\
  fst (getSolutionsList
         (store (snd (loadSolutionsList MoreSamples.hollow (VNum 12) Samples.fresh))))
  = Throw TypeError.
Proof.
  split.
  - now rewrite (getSolutionsList_after_load Samples.backend (VNum 12)
                   (obj [("solutions", VArr Samples.solutions)]) Samples.fresh eq_refl).
  - now rewrite (getSolutionsList_after_load MoreSamples.hollow (VNum 12)
                   VNull Samples.fresh eq_refl).
Defined.

(** X6. Once both loads have succeeded, in either order, with records in both
    bodies and an active solution for the id of every solution, the merged
    getter returns the merged record of every solution. *)
Theorem merged_view_after_loads axios (id body : value)
    (solutions actives : list value) (w : world) :
  axios ("/api/portfolio/" +:+ to_string id) = Normal {| data := body |} ->
  axios "api/solution" = Normal {| data := VArr actives |} ->
  field body "solutions" = VArr solutions ->
  Forall (fun v => is_record v = true) solutions ->
  Forall (fun v => is_record v = true) actives ->
  (forall solution, In solution solutions ->
     exists a, In a actives /\ same_id a solution = true) ->
  let st := store (snd (loadAllActiveSolutionsList axios
                          (snd (loadSolutionsList axios id w)))) in
  let st' := store (snd (loadSolutionsList axios id
                           (snd (loadAllActiveSolutionsList axios w)))) in
  st' = st /\
  getSolutionsListWithCountries st
  = (Normal (VArr (map (merge_countries actives) solutions)), st).
Proof.
  intros H1 H2 Hb Hrs Hra Hin st st'. subst st st'.
  unfold loadSolutionsList, loadAllActiveSolutionsList, axios_get, bind.
  simpl. rewrite H1, H2. simpl. split; [reflexivity|].
  now apply merged_getter_value.
Qed.

Lemma merged_view_after_loads_witness :
  let st := store (snd (loadAllActiveSolutionsList Samples.backend
                          (snd (loadSolutionsList Samples.backend (VNum 12)
                                  Samples.fresh)))) in
  getSolutionsListWithCountries st
  = (Normal (VArr (map (merge_countries Samples.actives) Samples.solutions)), st).
Proof.
  apply (merged_view_after_loads Samples.backend (VNum 12)
           (obj [("solutions", VArr Samples.solutions)])
           Samples.solutions Samples.actives Samples.fresh).
  - reflexivity.
  - reflexivity.
  - reflexivity.
  - repeat constructor.
  - repeat constructor.
  - intros solution [<-|[<-|[]]].
    + eexists. split; [right; left; reflexivity | reflexivity].
    + eexists. split; [left; reflexivity | reflexivity].
Defined.

End StoreViews.

(** ** The team selector: outcomes of the two directions *)

Section SelectorViews.
Import JS Notions Views TeamSelector.

Local Abbreviation lookup_test k t :=
  (fun profile : JS.value => v <- get_prop profile k ;; ret (strict_eq v t)).

Local Abbreviation lookup_round k k' :=
  (fun t : JS.value =>
     profiles <- gets userProfiles ;;
     profile <- array_find profiles (lookup_test k t) ;;
     get_prop profile k').

Lemma strict_eq_true_eq (a b : JS.value) : strict_eq a b = true -> a = b.
Proof.
  destruct a, b; simpl; try discriminate; intros H; try reflexivity; f_equal.
  - now apply Bool.eqb_prop.
  - now apply Z.eqb_eq.
  - now apply String.eqb_eq.
Qed.

Lemma lookup_test_inv k (t p : JS.value) (c c' : component) b :
  lookup_test k t p c = (Normal b, c') ->
  b = strict_eq (field p k) t /\ is_nullish p = false.
Proof.
  cbv beta. unfold bind.
  destruct p; simpl; try discriminate; intros [= <- <-]; split; reflexivity.
Qed.

Lemma get_prop_present (v : JS.value) k (c : component) :
  is_nullish v = false -> get_prop v k c = (Normal (field v k), c).
Proof. destruct v; simpl; intros H; try discriminate; reflexivity. Qed.

(** A round that returned has found the first profile with the value. *)
Lemma lookup_round_inv k k' (t y : JS.value) (c c' : component) :
  lookup_round k k' t c = (Normal y, c') ->
  first_such (fun p => strict_eq (field p k) t) (elements (userProfiles c))
    (first_with k t (elements (userProfiles c))) /\
  y = field (first_with k t (elements (userProfiles c))) k'.
Proof.
  cbv beta. rewrite bind_gets. intros H.
  apply bind_normal_inv in H as (found & s1 & Hfind & H).
  destruct (userProfiles c) as [| | | | |profiles|]; try discriminate Hfind.
  simpl array_find in Hfind. simpl elements.
  destruct (findM_inv _ _ _ _ _ (fun p => lookup_test_quiet k t p c) Hfind)
    as [-> [[-> _]|(l1 & l2 & Hl & Hv & Hl1)]]; [discriminate H|].
  destruct (lookup_test_inv _ _ _ _ _ _ Hv) as [Hid Hnn].
  assert (Hfirst : first_such (fun p => strict_eq (field p k) t) profiles found).
  { exists l1, l2. repeat split; [exact Hl | now symmetry |].
    intros z Hz. symmetry. exact (proj1 (lookup_test_inv _ _ _ _ _ _ (Hl1 z Hz))). }
  rewrite (get_prop_present found k' c Hnn) in H. injection H as <- <-.
  unfold first_with. rewrite (first_such_find _ _ _ Hfirst). simpl.
  split; [exact Hfirst | reflexivity].
Qed.

(** The translation of a sequence either throws or returns, for an array,
    the property of the first profile found for every element. *)
Lemma translate_outcome k k' (recv : JS.value) (c : component) :
  array_map recv (lookup_round k k') c = (Throw TypeError, c) \/
  exists l,
    recv = VArr l /\
    array_map recv (lookup_round k k') c
    = (Normal (VArr (map (fun t => field (first_with k t (elements (userProfiles c))) k') l)),
       c) /\
    forall t, In t l ->
      exists p, In p (elements (userProfiles c)) /\ strict_eq (field p k) t = true.
Proof.
  destruct (quiet_array_map recv (lookup_round k k') c
              (fun t => lookup_round_quiet k k' t c)) as [[v Hv]|Ht];
    [right | now left].
  destruct (array_map_inv _ _ _ _ _ (fun t => lookup_round_quiet k k' t c) Hv)
    as [_ (l & ys & -> & -> & HF)].
  exists l. split; [reflexivity|].
  assert (Hys : ys = map (fun t => field (first_with k t (elements (userProfiles c))) k') l).
  { clear Hv. induction HF as [|x y l ys Hxy HF IH]; simpl; [reflexivity|].
    rewrite IH. f_equal. exact (proj2 (lookup_round_inv _ _ _ _ _ _ Hxy)). }
  split; [now rewrite Hv, Hys|].
  intros t Hin. clear Hv Hys.
  induction HF as [|x y l ys Hxy HF IH]; [destruct Hin|].
  destruct Hin as [<-|Hin]; [|now apply IH].
  destruct (lookup_round_inv _ _ _ _ _ _ Hxy) as [(l1 & l2 & Hl & Hg & _) _].
  remember (first_with k x (elements (userProfiles c))) as p eqn:Ep.
  exists p. split; [|exact Hg]. rewrite Hl. apply in_elt.
Qed.

(** X7. The display direction either throws a [TypeError] or returns, for the
    array of ids, the labels of the first profiles with these ids, and then
    every id is the id of a profile. It never emits, and the component is
    left as it was. *)
Theorem innerValue_get_outcome (c : component) :
  innerValue_get c = (Throw TypeError, c) \/
  exists ids,
    value c = VArr ids /\
    innerValue_get c
    = (Normal (VArr (map (fun id => field (first_with "id" id (elements (userProfiles c)))
                                      "label") ids)), c) /\
    forall id, In id ids ->
      exists p, In p (elements (userProfiles c)) /\
                strict_eq (field p "id") id = true.
Proof.
  unfold innerValue_get. rewrite bind_gets.
  exact (translate_outcome "id" "label" (value c) c).
Qed.

(** X8. The edit direction either throws a [TypeError] and emits nothing, or it
    emits [change] once, with the ids of the first profiles with the labels
    of the array it was given, and then every label is the label of a
    profile. Nothing else of the component changes. *)
Theorem innerValue_set_outcome (v : JS.value) (c : component) :
  innerValue_set v c = (Throw TypeError, c) \/
  exists labels,
    v = VArr labels /\
    innerValue_set v c
    = (Normal tt,
       with_event "change"
         (VArr (map (fun label => field (first_with "label" label
                                           (elements (userProfiles c))) "id") labels))
         c) /\
    forall label, In label labels ->
      exists p, In p (elements (userProfiles c)) /\
                strict_eq (field p "label") label = true.
Proof.
  unfold innerValue_set.
  destruct (translate_outcome "label" "id" v c) as [Ht|(labels & -> & Hv & Hall)].
  - left. now apply bind_throw.
  - right. exists labels. split; [reflexivity|]. split; [|exact Hall].
    now rewrite (bind_normal _ _ _ _ _ Hv).
Qed.

(** There and back: a value found under [k] leads, through the property
    [k'] of its profile, back to itself, when [k'] tells the profiles
    apart. *)
Lemma lookup_there_and_back k k' (t : JS.value) profiles (c c' : component) :
  userProfiles c = VArr profiles ->
  userProfiles c' = VArr profiles ->
  Forall (fun p => is_record p = true) profiles ->
  Forall (fun p => is_primitive (field p k') = true) profiles ->
  (exists p, In p profiles /\ strict_eq (field p k) t = true) ->
  (forall p p', In p profiles -> In p' profiles ->
     strict_eq (field p k') (field p' k') = true -> field p k = field p' k) ->
  lookup_round k k' t c = (Normal (field (first_with k t profiles) k'), c) /\
  lookup_round k' k (field (first_with k t profiles) k') c' = (Normal t, c').
Proof.
  intros Hu Hu' Hr Hprim (p & Hp & Hpt) Hkey.
  destruct (lookup_round_found k k' t profiles c p Hu Hr Hp Hpt)
    as (p0 & Hfind & Hget).
  destruct (find_some _ _ Hfind) as [Hp0 Ht0].
  apply strict_eq_true_eq in Ht0.
  unfold first_with. rewrite Hfind. simpl default. split; [exact Hget|].
  assert (Hrefl : strict_eq (field p0 k') (field p0 k') = true).
  { apply strict_eq_refl. rewrite Forall_forall in Hprim.
    now apply Hprim, list_elem_of_In. }
  destruct (lookup_round_found k' k (field p0 k') profiles c' p0 Hu' Hr Hp0 Hrefl)
    as (q & Hfindq & Hback).
  destruct (find_some _ _ Hfindq) as [Hq Hlq].
  cbv beta in Hback |- *. rewrite Hback, (Hkey q p0 Hq Hp0 Hlq), Ht0. reflexivity.
Qed.

(** X9. From the labels to the ids and back. Let every label be the label of a
    profile, in a list of records whose ids are primitive values and in
    which two profiles with one id have one label. Then the edit direction
    emits [change] with one id per label, and the display direction of a
    component that holds these ids as its [value], over the same profile
    list, returns the labels. *)
Theorem innerValue_set_get (c : component) (profiles labels : list JS.value) :
  userProfiles c = VArr profiles ->
  Forall (fun p => is_record p = true) profiles ->
  Forall (fun p => is_primitive (field p "id") = true) profiles ->
  (forall label, In label labels ->
     exists p, In p profiles /\ strict_eq (field p "label") label = true) ->
  (forall p p', In p profiles -> In p' profiles ->
     strict_eq (field p "id") (field p' "id") = true ->
     field p "label" = field p' "label") ->
  exists ids,
    length ids = length labels /\
    innerValue_set (VArr labels) c
    = (Normal tt, with_event "change" (VArr ids) c) /\
    forall c', userProfiles c' = userProfiles c -> value c' = VArr ids ->
               innerValue_get c' = (Normal (VArr labels), c').
Proof.
  intros Hu Hr Hprim Hocc Hkey.
  set (id_of := fun label : JS.value => field (first_with "label" label profiles) "id").
  exists (map id_of labels). split; [apply length_map|]. split.
  - unfold innerValue_set.
    rewrite (bind_normal _ _ _ _ _
               (array_map_normal (lookup_round "label" "id") id_of labels c
                  (fun label Hl =>
                     proj1 (lookup_there_and_back "label" "id" label profiles c c
                              Hu Hu Hr Hprim (Hocc label Hl) Hkey)))).
    reflexivity.
  - intros c' Hu' Hv. rewrite Hu in Hu'.
    unfold innerValue_get. rewrite bind_gets, Hv.
    rewrite (array_map_normal_map id_of (lookup_round "id" "label")
               (fun label : JS.value => label) labels c'
               (fun label Hl =>
                  proj2 (lookup_there_and_back "label" "id" label profiles c c'
                           Hu Hu' Hr Hprim (Hocc label Hl) Hkey))).
    now rewrite map_id.
Qed.

Lemma innerValue_set_get_witness :
  exists ids,
    length ids = 2 /\
    innerValue_set (VArr [VStr "bob@unicef.org"; VStr "Alice <alice@unicef.org>"])
      Samples.team
    = (Normal tt, with_event "change" (VArr ids) Samples.team) /\
    forall c', userProfiles c' = userProfiles Samples.team -> value c' = VArr ids ->
               innerValue_get c'
               = (Normal (VArr [VStr "bob@unicef.org"; VStr "Alice <alice@unicef.org>"]),
                  c').
Proof.
  apply (innerValue_set_get Samples.team [Samples.alice; Samples.bob]
           [VStr "bob@unicef.org"; VStr "Alice <alice@unicef.org>"]).
  - reflexivity.
  - repeat constructor.
  - repeat constructor.
  - intros label [<-|[<-|[]]].
    + exists Samples.bob. split; [right; left; reflexivity | reflexivity].
    + exists Samples.alice. split; [left; reflexivity | reflexivity].
  - intros p p' [<-|[<-|[]]] [<-|[<-|[]]] H;
      first [reflexivity | vm_compute in H; discriminate].
Defined.

(** X10. An empty or missing selection. Without an array as its [value] (the
    default of the prop is [null]) the display direction throws; on the
    empty array it returns the empty array, and the edit direction emits
    [change] with the empty array, both without reading the profile list;
    the edit direction throws on what is not an array. *)
Theorem innerValue_no_selection (c : component) :
  (is_array (value c) = false -> innerValue_get c = (Throw TypeError, c)) /\
  (value c = VArr [] -> innerValue_get c = (Normal (VArr []), c)) /\
  innerValue_set (VArr []) c = (Normal tt, with_event "change" (VArr []) c) /\
  (forall v, is_array v = false -> innerValue_set v c = (Throw TypeError, c)).
Proof.
  split; [|split; [|split]].
  - intros H. unfold innerValue_get. rewrite bind_gets.
    destruct (value c); try discriminate H; reflexivity.
  - intros H. unfold innerValue_get. rewrite bind_gets, H. reflexivity.
  - reflexivity.
  - intros v H. destruct v; try discriminate H; reflexivity.
Qed.

Lemma innerValue_no_selection_witness :
  let c := data VNull VUndefined in
  innerValue_get c = (Throw TypeError, c) /\
  innerValue_get (with_value (VArr []) c) = (Normal (VArr []), with_value (VArr []) c) /\
  innerValue_set VNull c = (Throw TypeError, c).
Proof.
  intros c. split; [|split].
  - apply (proj1 (innerValue_no_selection c)). reflexivity.
  - apply (proj1 (proj2 (innerValue_no_selection (with_value (VArr []) c)))).
    reflexivity.
  - apply (proj2 (proj2 (proj2 (innerValue_no_selection c)))). reflexivity.
Defined.

End SelectorViews.

(** ** Evaluations that do not touch the object *)

Section Stateless.
Import JS Notions Views.
Context {S : Type}.

Lemma stateless_ret {A} (a : A) : stateless (@ret S A a).
Proof. now exists (Normal a). Qed.

Lemma stateless_throw {A} (e : exn) : stateless (@throw S A e).
Proof. now exists (Throw e). Qed.

Lemma stateless_bind {A B} (m : M S A) (k : A -> M S B) :
  stateless m -> (forall a, stateless (k a)) -> stateless (bind m k).
Proof.
  intros [[a|e] Hm] Hk.
  - destruct (Hk a) as [r Hr]. exists r. intros s. unfold bind. now rewrite Hm.
  - exists (Throw e). intros s. unfold bind. now rewrite Hm.
Qed.

Lemma stateless_get_prop (v : value) k : stateless (@get_prop S v k).
Proof. destruct v; simpl; first [apply stateless_throw | apply stateless_ret]. Qed.

Lemma stateless_call_toLowerCase lower (v : value) :
  stateless (@call_toLowerCase lower S v).
Proof. destruct v; simpl; first [apply stateless_throw | apply stateless_ret]. Qed.

Lemma stateless_filterM (p : value -> M S bool) l :
  (forall x, stateless (p x)) -> stateless (filterM p l).
Proof.
  intros Hp. induction l as [|x l IH]; simpl.
  - apply stateless_ret.
  - apply stateless_bind; [apply Hp|]. intros b.
    apply stateless_bind; [apply IH|]. intros ys. apply stateless_ret.
Qed.

End Stateless.

(** ** Lists kept by a filter *)

Lemma filter_all (l : list JS.value) : List.filter (fun _ => true) l = l.
Proof. induction l as [|x l IH]; simpl; [reflexivity | now rewrite IH]. Qed.

Lemma filter_sublist (g h : JS.value -> bool) l :
  (forall x, g x = true -> h x = true) ->
  sublist (List.filter g l) (List.filter h l).
Proof.
  intros Hgh. induction l as [|x l IH]; simpl; [constructor|].
  destruct (g x) eqn:Hg.
  - rewrite (Hgh x Hg). now constructor.
  - destruct (h x); [now constructor | exact IH].
Qed.

(** ** The team selector: outcomes of the search *)

Section SearchViews.
Import JS Notions Views TeamSelector.

(** The [toLowerCase] of the runtime, whatever it computes. *)
Variable toLowerCase : string -> string.

Local Abbreviation filter := (TeamSelector.filter toLowerCase).
Local Abbreviation filterMethod := (TeamSelector.filterMethod toLowerCase).
Local Abbreviation ci_prefix := (Notions.ci_prefix toLowerCase).
Local Abbreviation matches := (Notions.matches toLowerCase).
Local Abbreviation name_starts_with := (Views.name_starts_with toLowerCase).

Local Abbreviation search_round query :=
  (fun p : JS.value =>
     name <- get_prop p "name" ;;
     val <- (if truthy name then get_prop p "name" else get_prop p "email") ;;
     left <- filter val query ;;
     if left then ret true
     else
       email <- get_prop p "email" ;;
       if truthy email then
         email' <- get_prop p "email" ;;
         filter email' query
       else ret false).

Lemma filter_stateless (val query : JS.value) : stateless (filter val query).
Proof.
  unfold TeamSelector.filter. apply stateless_bind; [apply stateless_call_toLowerCase|].
  intros v. apply stateless_bind; [apply stateless_call_toLowerCase|].
  intros q. apply stateless_ret.
Qed.

Lemma filter_quiet (val query : JS.value) (c : component) :
  quiet (filter val query) c.
Proof.
  unfold TeamSelector.filter. apply quiet_bind; [apply quiet_call_toLowerCase|].
  intros v. apply quiet_bind; [apply quiet_call_toLowerCase|].
  intros q. apply quiet_ret.
Qed.

Lemma search_round_stateless (query p : JS.value) :
  stateless (search_round query p).
Proof.
  cbv beta. apply stateless_bind; [apply stateless_get_prop|]. intros name.
  apply stateless_bind; [destruct (truthy name); apply stateless_get_prop|].
  intros val. apply stateless_bind; [apply filter_stateless|].
  intros [|]; [apply stateless_ret|].
  apply stateless_bind; [apply stateless_get_prop|]. intros email.
  destruct (truthy email); [|apply stateless_ret].
  apply stateless_bind; [apply stateless_get_prop|]. intros email'.
  apply filter_stateless.
Qed.

Lemma search_round_quiet (query p : JS.value) (c : component) :
  quiet (search_round query p) c.
Proof.
  cbv beta. apply quiet_bind; [apply quiet_get_prop|]. intros name.
  apply quiet_bind; [destruct (truthy name); apply quiet_get_prop|].
  intros val. apply quiet_bind; [apply filter_quiet|].
  intros [|]; [apply quiet_ret|].
  apply quiet_bind; [apply quiet_get_prop|]. intros email.
  destruct (truthy email); [|apply quiet_ret].
  apply quiet_bind; [apply quiet_get_prop|]. intros email'.
  apply filter_quiet.
Qed.

(** X12. The search either throws a [TypeError] and leaves the component as it
    was, or it writes [filteredOptions] and nothing else; the options are
    profiles of the list, in the order of the list. *)
Theorem filterMethod_outcome (query : JS.value) (c : component) :
  filterMethod query c = (Throw TypeError, c) \/
  exists options,
    filterMethod query c = (Normal tt, set_filteredOptions (VArr options) c) /\
    sublist options (elements (userProfiles c)).
Proof.
  unfold TeamSelector.filterMethod. destruct (truthy query).
  - rewrite bind_gets.
    destruct (userProfiles c) as [| | | | |profiles|];
      try (left; reflexivity).
    simpl elements. unfold array_filter.
    destruct (filterM_outcome (search_round query) profiles c
                (fun p => search_round_quiet query p c))
      as [Ht|(ys & Hys & Hsub)].
    + left. apply bind_throw. now apply bind_throw.
    + right. exists ys. split; [|exact Hsub].
      rewrite (bind_normal _ _ c (VArr ys) c); [reflexivity|].
      now rewrite (bind_normal _ _ _ _ _ Hys).
  - right. exists []. split; [reflexivity | apply sublist_nil_l].
Qed.

(** What a search does is decided by the query and the profile list. *)
Lemma filterMethod_depends (query profiles : JS.value) :
  exists r : completion JS.value,
    forall c, userProfiles c = profiles ->
      filterMethod query c
      = match r with
        | Normal options => (Normal tt, set_filteredOptions options c)
        | Throw e => (Throw e, c)
        end.
Proof.
  unfold TeamSelector.filterMethod. destruct (truthy query).
  - destruct profiles as [| | | | |l|];
      try (exists (Throw TypeError); intros c Hc; rewrite bind_gets, Hc; reflexivity).
    destruct (stateless_filterM (search_round query) l
                (search_round_stateless query)) as [[ys|e] Hr].
    + exists (Normal (VArr ys)). intros c Hc. rewrite bind_gets, Hc.
      unfold array_filter, bind. now rewrite Hr.
    + exists (Throw e). intros c Hc. rewrite bind_gets, Hc.
      unfold array_filter, bind. now rewrite Hr.
  - exists (Normal (VArr [])). reflexivity.
Qed.

(** X15. The last search wins. A search done twice leaves the component as the
    first time; and a search that returns leaves the component the same
    whether or not another search came before it. *)
Theorem filterMethod_last_wins (query query0 : JS.value) (c : component) :
  filterMethod query (snd (filterMethod query c))
  = (fst (filterMethod query c), snd (filterMethod query c)) /\
  (fst (filterMethod query c) = Normal tt ->
   filterMethod query (snd (filterMethod query0 c)) = filterMethod query c).
Proof.
  destruct (filterMethod_depends query (userProfiles c)) as [r Hr].
  destruct (filterMethod_depends query0 (userProfiles c)) as [r0 Hr0].
  rewrite (Hr c eq_refl). split.
  - destruct r as [options|e]; simpl.
    + now rewrite (Hr (set_filteredOptions options c) eq_refl).
    + now rewrite (Hr c eq_refl).
  - rewrite (Hr0 c eq_refl). destruct r as [options|e]; [|discriminate].
    intros _. destruct r0 as [options0|e0]; simpl.
    + now rewrite (Hr (set_filteredOptions options0 c) eq_refl).
    + now rewrite (Hr c eq_refl).
Qed.

(** X16. A truthy query that is not a string: the search throws as soon as the
    profile list has a profile, and sets the empty array on the empty
    list. *)
Theorem filterMethod_query_not_string (query : JS.value) (c : component) :
  truthy query = true -> is_string query = false ->
  (userProfiles c = VArr [] ->
   filterMethod query c = (Normal tt, set_filteredOptions (VArr []) c)) /\
  (forall p l, userProfiles c = VArr (p :: l) ->
     filterMethod query c = (Throw TypeError, c)).
Proof.
  intros Ht Hs. unfold TeamSelector.filterMethod. rewrite Ht. split.
  - intros Hu. rewrite bind_gets, Hu. reflexivity.
  - intros p l Hu. rewrite bind_gets, Hu. apply bind_throw.
    unfold array_filter. apply bind_throw. simpl filterM. apply bind_throw.
    destruct (is_nullish p) eqn:Hn.
    + destruct p; try discriminate Hn; reflexivity.
    + rewrite (bind_normal _ _ _ _ _ (get_prop_present p "name" c Hn)).
      assert (Hval : forall v, filter v query c = (Throw TypeError, c)).
      { intros v. unfold TeamSelector.filter, bind.
        destruct v; try reflexivity.
        destruct query; try discriminate Hs; reflexivity. }
      destruct (truthy (field p "name")).
      * rewrite (bind_normal _ _ _ _ _ (get_prop_present p "name" c Hn)).
        apply bind_throw, Hval.
      * rewrite (bind_normal _ _ _ _ _ (get_prop_present p "email" c Hn)).
        apply bind_throw, Hval.
Qed.

(** X17. A name that starts with the query settles a profile: when the name of
    every profile is a truthy string that starts with the query, the options
    are the whole list, whatever the emails are. *)
Theorem filterMethod_name_match
    (c : component) (profiles : list JS.value) (q : string) :
  q <> "" ->
  userProfiles c = VArr profiles ->
  Forall (fun p => name_starts_with q p = true) profiles ->
  filterMethod (VStr q) c = (Normal tt, set_filteredOptions (VArr profiles) c).
Proof.
  intros Hq Hu Hn. unfold TeamSelector.filterMethod.
  assert (Ht : truthy (VStr q) = true) by (destruct q; [congruence | reflexivity]).
  rewrite Ht, bind_gets, Hu.
  assert (Hcb : forall p, In p profiles ->
                  search_round (VStr q) p c = (Normal true, c)).
  { intros p Hp. rewrite Forall_forall in Hn.
    specialize (Hn p (proj2 (list_elem_of_In _ _) Hp)).
    unfold Views.name_starts_with in Hn.
    destruct p as [| | | | | |props]; try discriminate Hn.
    cbv beta.
    rewrite (bind_normal _ _ _ _ _ (get_prop_present (VObj props) "name" c eq_refl)).
    destruct (field (VObj props) "name") as [| | | |s| |] eqn:En;
      try discriminate Hn.
    apply andb_true_iff in Hn as [Hne Hst]. simpl truthy. rewrite Hne.
    rewrite (bind_normal _ _ _ _ _ (get_prop_present (VObj props) "name" c eq_refl)).
    rewrite En, (bind_normal _ _ _ _ _ (filter_strings toLowerCase s q c)), Hst. reflexivity. }
  rewrite (bind_normal _ _ _ _ _
             (array_filter_normal (search_round (VStr q)) (fun _ => true)
                profiles c Hcb)).
  now rewrite filter_all.
Qed.


(** Two facts of [toLowerCase]: the lower-case form of the empty string is
    empty, and that of no other string is. *)
Hypothesis toLowerCase_empty : toLowerCase "" = "".
Hypothesis toLowerCase_nonempty : forall s, s <> "" -> toLowerCase s <> "".

(** X13. The search does not tell the case of the letters of the query: two
    queries with one lower-case form do the same to every component. *)
Theorem filterMethod_query_case (q q' : string) (c : component) :
  toLowerCase q = toLowerCase q' ->
  filterMethod (VStr q) c = filterMethod (VStr q') c.
Proof.
  intros H.
  assert (Ht : truthy (VStr q) = truthy (VStr q')).
  { destruct q as [|a q], q' as [|a' q']; try reflexivity; exfalso.
    - rewrite toLowerCase_empty in H.
      apply (toLowerCase_nonempty (String a' q')); [discriminate | now symmetry].
    - rewrite toLowerCase_empty in H.
      apply (toLowerCase_nonempty (String a q)); [discriminate | exact H]. }
  unfold TeamSelector.filterMethod. rewrite Ht.
  destruct (truthy (VStr q')); [|reflexivity].
  unfold TeamSelector.filter, call_toLowerCase. cbv beta iota. now rewrite H.
Qed.

Lemma prefix_trans (a b d : string) :
  String.prefix a b = true -> String.prefix b d = true -> String.prefix a d = true.
Proof.
  revert b d. induction a as [|x a IH]; intros b d Hab Hbd; [now destruct d|].
  destruct b as [|y b]; [discriminate Hab|].
  destruct d as [|z d]; [discriminate Hbd|].
  simpl in *.
  destruct (ascii_dec x y) as [->|]; [|discriminate Hab].
  destruct (ascii_dec y z) as [->|]; [|discriminate Hbd].
  now apply (IH b d).
Qed.

(** X14. Typing on narrows the options: on a list of searchable profiles,
    when the query is a prefix, up to the case of the letters, of the query
    continued by further characters, the options of the continued query are
    among the options of the query, in the same order. *)
Theorem filterMethod_narrows
    (c : component) (profiles : list JS.value) (q r : string) :
  q <> "" ->
  userProfiles c = VArr profiles ->
  Forall (fun p => searchable p = true) profiles ->
  ci_prefix q (q +:+ r) ->
  exists wide narrow,
    filterMethod (VStr q) c = (Normal tt, set_filteredOptions (VArr wide) c) /\
    filterMethod (VStr (q +:+ r)) c
    = (Normal tt, set_filteredOptions (VArr narrow) c) /\
    sublist narrow wide.
Proof.
  intros Hq Hu Hs Hqr.
  assert (Hne : q +:+ r <> "") by (destruct q; [congruence | discriminate]).
  exists (List.filter (matches q) profiles),
         (List.filter (matches (q +:+ r)) profiles).
  split; [now apply filterMethod_searchable|].
  split; [now apply filterMethod_searchable|].
  apply filter_sublist. intros p Hp.
  apply matches_spec. apply matches_spec in Hp.
  destruct Hp as [(s & Hv & Hp)|(s & Hv & Hp)]; [left | right];
    exists s; (split; [exact Hv | exact (prefix_trans _ _ _ Hqr Hp)]).
Qed.

End SearchViews.

(** ** The team selector: outcomes of the search on Latin-1 text *)

Section SearchViewsLatin1.
Import JS Notions Views TeamSelector.


Lemma filterMethod_query_case_witness :
  filterMethod Latin1.toLowerCase (VStr "AL") Samples.team
  = filterMethod Latin1.toLowerCase (VStr "al") Samples.team.
Proof.
  apply (filterMethod_query_case Latin1.toLowerCase
           Latin1_toLowerCase_empty Latin1_toLowerCase_nonempty
           "AL" "al" Samples.team).
  reflexivity.
Defined.

Lemma filterMethod_narrows_witness :
  exists wide narrow,
    filterMethod Latin1.toLowerCase (VStr "a") Samples.team
    = (Normal tt, set_filteredOptions (VArr wide) Samples.team) /\
    filterMethod Latin1.toLowerCase (VStr "alx") Samples.team
    = (Normal tt, set_filteredOptions (VArr narrow) Samples.team) /\
    sublist narrow wide.
Proof.
  apply (filterMethod_narrows Latin1.toLowerCase
           Latin1_toLowerCase_empty Latin1_toLowerCase_nonempty
           Samples.team [Samples.alice; Samples.bob] "a" "lx").
  - discriminate.
  - reflexivity.
  - repeat constructor.
  - reflexivity.
Defined.

Lemma filterMethod_last_wins_witness :
  filterMethod Latin1.toLowerCase (VStr "b")
    (snd (filterMethod Latin1.toLowerCase (VStr "al") Samples.team))
  = filterMethod Latin1.toLowerCase (VStr "b") Samples.team.
Proof.
  apply (proj2 (filterMethod_last_wins Latin1.toLowerCase
                  (VStr "b") (VStr "al") Samples.team)).
  reflexivity.
Defined.

Lemma filterMethod_query_not_string_witness :
  filterMethod Latin1.toLowerCase (VNum 7) Samples.team
  = (Throw TypeError, Samples.team) /\
  filterMethod Latin1.toLowerCase (VNum 7) (data VNull (VArr []))
  = (Normal tt, set_filteredOptions (VArr []) (data VNull (VArr []))).
Proof.
  split.
  - apply (proj2 (filterMethod_query_not_string Latin1.toLowerCase
                    (VNum 7) Samples.team eq_refl eq_refl)
             Samples.alice [Samples.bob]).
    reflexivity.
  - apply (proj1 (filterMethod_query_not_string Latin1.toLowerCase
                    (VNum 7) (data VNull (VArr [])) eq_refl eq_refl)).
    reflexivity.
Defined.

Lemma filterMethod_name_match_witness :
  let c := data VNull (VArr [MoreSamples.carol]) in
  filterMethod Latin1.toLowerCase (VStr "ca") c
  = (Normal tt, set_filteredOptions (VArr [MoreSamples.carol]) c).
Proof.
  intros c.
  apply (filterMethod_name_match Latin1.toLowerCase c [MoreSamples.carol] "ca").
  - discriminate.
  - reflexivity.
  - repeat constructor.
Defined.

(** With a name that does not start with the query, the number in the place
    of the email of the same profile makes the search throw. *)
Example filterMethod_carol :
  filterMethod Latin1.toLowerCase (VStr "al") MoreSamples.with_carol
  = (Throw TypeError, MoreSamples.with_carol).
Proof. vm_compute. reflexivity. Qed.

End SearchViewsLatin1.
